(** * Metaheuristic: the search orchestration engine of customhys

    A shallow embedding of [src/metaheuristic.py] (class [Metaheuristic]):
    the compilation of the simple heuristics ([process_heuristics]), the
    iteration loop ([run]) and the historical tracker
    ([__update_historicals]).

    Scalars are IEEE 754 binary64 numbers (Python [float], numpy [float64]),
    modelled by the kernel's primitive floats.  Python exceptions are
    modelled by an error monad.  Three things lie outside the source file and
    are parameters of the model: the population object, the evaluation of
    Python text by [exec], and the order in which numpy adds the terms of a
    sum. *)

From Stdlib Require Import ZArith List String Ascii Bool Lia Relations.
From Stdlib Require Import DecimalString.
From Stdlib Require Import Floats.
Import ListNotations.

Local Open Scope Z_scope.
Local Open Scope string_scope.

(** ** Exceptions and the error monad *)

Inductive exception : Type :=
| IndexError                 (* list index out of range, raised by the engine's own reads *)
| ValueError                 (* numpy: shapes that do not fit, reduction of an empty array *)
| UnknownOperatorError       (* the error the specification expects from plan compilation *)
| PortError (name : string). (* any exception raised inside the population object or by
                                an evaluated operator text *)

Inductive result (A : Type) : Type :=
| Ok (a : A)
| Raise (e : exception).

Arguments Ok {A} a.
Arguments Raise {A} e.

Definition bind {A B : Type} (r : result A) (k : A -> result B) : result B :=
  match r with
  | Ok a => k a
  | Raise e => Raise e
  end.

Declare Scope result_scope.
Delimit Scope result_scope with result.
Notation "x <- c1 ;; c2" := (bind c1 (fun x => c2))
  (at level 100, c1 at next level, right associativity) : result_scope.
Notation "c1 ;;; c2" := (bind c1 (fun _ => c2))
  (at level 100, right associativity) : result_scope.
Local Open Scope result_scope.

(** A [for] loop whose body may raise: the first exception leaves the loop. *)
Fixpoint for_each {A St : Type} (body : A -> St -> result St) (l : list A) (s : St)
  : result St :=
  match l with
  | [] => Ok s
  | x :: l' => s' <- body x s ;; for_each body l' s'
  end.

(** [range(a, b)] *)
Definition range (a b : Z) : list Z :=
  map (fun i => a + Z.of_nat i) (seq 0 (Z.to_nat (b - a))).

(** [l.append(x)] *)
Definition append {A : Type} (l : list A) (x : A) : list A := (l ++ [x])%list.

(** [l[-k]] for [k >= 1]: the k-th element from the end, [IndexError] when
    the list holds fewer than [k] elements. *)
Definition index_neg {A : Type} (l : list A) (k : nat) : result A :=
  match nth_error (rev l) (pred k) with
  | Some x => Ok x
  | None => Raise IndexError
  end.

(** ** numpy on float64 vectors and matrices

    An array of two dimensions is the list of its rows.  A value of no
    dimension (the mean of an empty array) is a vector of one element, as
    [np.tile] treats it. *)

Module Np.

(** [int] to [float64] (exact for the counts used here). *)
Definition of_Z (n : Z) : float := PrimFloat.of_uint63 (Uint63.of_Z n).

(** [np.add.reduce] over the fast axis of an array: the sum of a vector.
    numpy adds the terms in an order of its own (blocks of a long vector
    are added pairwise), and the result of a sum of binary64 numbers depends
    on the order.  The order is a parameter of the model. *)
Definition reduction : Type := list float -> float.

(** What every order has: the result is obtained from the terms and the
    unit [0.0] by additions, so a property that [0.0] has and that additions
    keep passes from the terms to the sum. *)
Definition summation (reduce : reduction) : Prop :=
  forall P : float -> Prop,
    P 0%float ->
    (forall a b, P a -> P b -> P (PrimFloat.add a b)) ->
    forall v, Forall P v -> P (reduce v).

(** One order: from [0.0], in index order.  The sums of the examples below
    have two terms, or three equal terms: every order gives them the same
    value. *)
Definition in_order : reduction :=
  fun v => fold_left PrimFloat.add v 0%float.

(** Element-wise operations on vectors of the same length. *)
Fixpoint zip_with (f : float -> float -> float) (u v : list float) : list float :=
  match u, v with
  | x :: u', y :: v' => f x y :: zip_with f u' v'
  | _, _ => []
  end.

Definition vadd : list float -> list float -> list float := zip_with PrimFloat.add.
Definition vsub : list float -> list float -> list float := zip_with PrimFloat.sub.

(** A list of rows is an N x D array when N >= 1 and all rows have the
    length of the first. *)
Definition is_matrix (rows : list (list float)) : bool :=
  match rows with
  | [] => false
  | r :: rs => forallb (fun r' => Nat.eqb (List.length r') (List.length r)) rs
  end.

(** [add.reduce(a, axis=0)] of an N x D array (N >= 1).  With one column,
    the rows are the fast axis and the column is one sum; with more, the
    rows are added to the first one in order, element by element. *)
Definition sum0 (reduce : reduction) (rows : list (list float)) : list float :=
  match rows with
  | [] => []
  | r :: rs =>
      if Nat.eqb (List.length r) 1 then [reduce (map (hd 0%float) rows)]
      else fold_left vadd rs r
  end.

(** [np.array(rows).mean(0)]: the sum along the rows, divided by their
    number.  Of no row at all the mean is [0.0 / 0], NaN, a value of no
    dimension (numpy warns and goes on); rows of different lengths do not
    make an array ([ValueError]). *)
Definition mean0 (reduce : reduction) (rows : list (list float)) : result (list float) :=
  match rows with
  | [] => Ok [PrimFloat.div 0%float (of_Z 0)]
  | _ :: _ =>
      if is_matrix rows then
        let count := of_Z (Z.of_nat (List.length rows)) in
        Ok (map (fun s => PrimFloat.div s count) (sum0 reduce rows))
      else Raise ValueError
  end.

(** Broadcasting: two extents fit when they are equal or one of them is 1. *)
Definition fits (d1 d2 : nat) : bool :=
  Nat.eqb d1 d2 || Nat.eqb d1 1 || Nat.eqb d2 1.

(** [r - c] for two rows whose lengths fit: a row of one element is
    repeated along the other. *)
Definition row_sub (r c : list float) : list float :=
  if Nat.eqb (List.length r) (List.length c) then vsub r c
  else
    match c, r with
    | [c0], _ => map (fun x => PrimFloat.sub x c0) r
    | _, [r0] => map (fun y => PrimFloat.sub r0 y) c
    | _, _ => []
    end.

(** [x - np.tile(c, (n, 1))]: the tiled array has [n] rows, each of them
    [c]; the two arrays are broadcast against each other.  [np.tile] refuses
    a negative [n]; an empty [x] has the shape (0,) and broadcasts as one
    row without columns; shapes that do not fit are a [ValueError]. *)
Definition sub_tile (x : list (list float)) (c : list float) (n : Z)
  : result (list (list float)) :=
  if (n <? 0)%Z then Raise ValueError
  else
    let a := match x with [] => [[]] | _ :: _ => x end in
    let rows := Z.to_nat n in
    if is_matrix a && fits (List.length (hd [] a)) (List.length c) then
      if Nat.eqb (List.length a) rows || Nat.eqb rows 1 then
        Ok (map (fun r => row_sub r c) a)
      else if Nat.eqb (List.length a) 1 then
        Ok (repeat (row_sub (hd [] a) c) rows)
      else Raise ValueError
    else Raise ValueError.

(** [np.linalg.norm(x, 2, 1)]: [sqrt(add.reduce((x.conj() * x).real, axis=1))] *)
Definition norm2_rows (reduce : reduction) (x : list (list float)) : list float :=
  map (fun row => PrimFloat.sqrt (reduce (map (fun d => PrimFloat.mul d d) row))) x.

(** [np.maximum]: [a] when [a >= b] or [a] is NaN, [b] otherwise; a NaN on
    either side wins. *)
Definition maximum (a b : float) : float :=
  if PrimFloat.leb b a || PrimFloat.is_nan a then a else b.

(** [v.max()] *)
Definition max (v : list float) : result float :=
  match v with
  | [] => Raise ValueError
  | x :: v' => Ok (fold_left maximum v' x)
  end.

End Np.

(** The population radius as [__update_historicals] computes it from the
    positions, the centroid and [num_agents]. *)
Definition radius_of (reduce : Np.reduction) (num_agents : Z)
    (positions : list (list float)) (centroid : list float) : result float :=
  diff <- Np.sub_tile positions centroid num_agents ;;
  Np.max (Np.norm2_rows reduce diff).

(** ** The population object ([import population as pop])

    [population.py] is not part of the engine: the engine sees an object with
    a few attributes it reads or assigns and a few methods it calls.  The
    attributes are record fields; the methods are taken as parameters (a
    [Port]); a method either returns the updated object or raises. *)

Module Pop.

Record Population (S : Type) : Type := {
  iteration : Z;
  num_dimensions : Z;
  positions : list (list float);
  global_best_fitness : float;
  global_best_position : list float;
  internals : S      (* whatever else the population keeps *)
}.

Arguments iteration {S} _.
Arguments num_dimensions {S} _.
Arguments positions {S} _.
Arguments global_best_fitness {S} _.
Arguments global_best_position {S} _.
Arguments internals {S} _.

(** [self.pop.iteration = k] *)
Definition set_iteration {S : Type} (k : Z) (p : Population S) : Population S :=
  {| iteration := k;
     num_dimensions := num_dimensions p;
     positions := positions p;
     global_best_fitness := global_best_fitness p;
     global_best_position := global_best_position p;
     internals := internals p |}.

(** A method call: [inl name] when the exception [name] is raised. *)
Definition method (S : Type) : Type := Population S -> string + Population S.

Record Port (S : Type) : Type := {
  initialise_uniformly : method S;
  evaluate_fitness : method S;
  (** [update_positions(level, selector)] *)
  update_positions : string -> string -> method S;
  (** [get_state()]: a text that describes the population, or an exception *)
  get_state : Population S -> string + string;
  (** [pop.__selection__] *)
  selection : list string
}.

Arguments initialise_uniformly {S} _.
Arguments evaluate_fitness {S} _.
Arguments update_positions {S} _.
Arguments get_state {S} _.
Arguments selection {S} _.

(** [update_positions()]; the source records the defaults:
    "Default: 'population', 'all'". *)
Definition update_positions_default {S : Type} (port : Port S) : method S :=
  update_positions port "population" "all".

(** The methods leave the attribute [iteration] alone. *)
Definition keeps_iteration {S : Type} (m : method S) : Prop :=
  forall p p', m p = inr p' -> iteration p' = iteration p.

Definition port_keeps_iteration {S : Type} (port : Port S) : Prop :=
  keeps_iteration (initialise_uniformly port)
  /\ keeps_iteration (evaluate_fitness port)
  /\ (forall level selector, keeps_iteration (update_positions port level selector)).

End Pop.
(** ** Heuristic descriptors *)

(** A parameter value.  [type(value) == str] holds for [VStr] only; the other
    values are rendered by [format]: an [int] in decimal, a [bool] as [True]
    or [False], a [float] by its shortest representation, which stands for
    the number here. *)
Inductive value : Type :=
| VStr (s : string)
| VInt (n : Z)
| VBool (b : bool)
| VFloat (repr : string).

Definition string_of_Z (n : Z) : string := NilZero.string_of_int (Z.to_int n).

(** ["{}".format(value)] *)
Definition format_value (v : value) : string :=
  match v with
  | VStr s => s
  | VInt n => string_of_Z n
  | VBool true => "True"
  | VBool false => "False"
  | VFloat repr => repr
  end.

(** A simple heuristic: [(operator, parameters, selector)]; [parameters] is a
    [dict], iterated in insertion order. *)
Definition descriptor : Type := (string * list (string * value) * string)%type.

(** [sep.join(parts)] *)
Fixpoint join (sep : string) (parts : list string) : string :=
  match parts with
  | [] => ""
  | [x] => x
  | x :: rest => x ++ sep ++ join sep rest
  end.

(** The inner loop of [process_heuristics]: one text per parameter. *)
Definition format_parameter (str_parameters : list string) (pv : string * value)
  : list string :=
  let (parameter, v) := pv in
  match v with
  | VStr s => append str_parameters (parameter ++ " = '" ++ s ++ "'")
  | _ => append str_parameters (parameter ++ " = " ++ format_value v)
  end.

(** The body of the outer loop of [process_heuristics]. *)
Definition process_heuristic (acc : list string * list string) (h : descriptor)
  : list string * list string :=
  let '(executable_operators, selectors) := acc in
  let '(operator, parameters, selector) := h in
  let selectors := append selectors selector in
  let full_string :=
    if Z.of_nat (List.length parameters) >=? 0 then
      let sep := "," in
      let str_parameters := fold_left format_parameter parameters [] in
      operator ++ "(" ++ join sep str_parameters ++ ")"
    else
      operator ++ "()" in
  (append executable_operators full_string, selectors).

(** [Metaheuristic.process_heuristics]: it has no [raise] of its own. *)
Definition process_heuristics (simple_heuristics : list descriptor)
  : result (list string * list string) :=
  Ok (fold_left process_heuristic simple_heuristics ([], [])).

(** ** The engine *)

(** What [run] does to its objects, one entry per statement: the vocabulary
    in which the order of a run is stated. *)
Inductive action : Type :=
| SetIteration (k : Z)                    (* self.pop.iteration = k *)
| InitialiseUniformly                     (* self.pop.initialise_uniformly() *)
| EvaluateFitness                         (* self.pop.evaluate_fitness() *)
| UpdatePositions (level selector : string) (* self.pop.update_positions(level, selector) *)
| Exec (source : string)                  (* exec(source) *)
| UpdateHistoricals                       (* self.__update_historicals() *)
| Report.                                 (* the arguments of the report of an iteration *)

Section Engine.

Variable S : Type.
Variable reduce : Np.reduction.

(** The attributes of a [Metaheuristic] object.  The histories hold values:
    an entry is the number or the vector that was appended (an array that
    the population would later change in place is not followed). *)
Record Metaheuristic : Type := {
  pop : Pop.Population S;
  operators : list string;
  selectors : list string;
  num_iterations : Z;
  num_dimensions : Z;
  num_agents : Z;
  historical_global_fitness : list float;
  historical_global_position : list (list float);
  historical_centroid : list float;
  historical_radius : list float;
  historical_stagnation : list Z;
  verbose : bool
}.

(** [exec(source)] inside [run]: Python evaluates the text where [self] is
    the engine, so the text reaches the population as [self.pop] and every
    other attribute of the engine as well.  An evaluation returns the
    engine as the text leaves it, or [inl name] when the exception [name] is
    raised.  What a text does to the attributes of the engine and of the
    population is followed; what it does elsewhere (to the modules that the
    engine imports, such as the list [pop.__selection__], or to the code of
    a method) is not. *)
Definition evaluator : Type := string -> Metaheuristic -> string + Metaheuristic.

Variable exec : evaluator.
Variable port : Pop.Port S.

(** [Metaheuristic.__init__]; [population] is the object that
    [pop.Population(problem_function, boundaries, num_agents, is_constrained)]
    returns. *)
Definition init (population : Pop.Population S) (simple_heuristics : list descriptor)
    (num_agents threshold_iterations : Z) (verbose : bool) : result Metaheuristic :=
  plan <- process_heuristics simple_heuristics ;;
  Ok {| pop := population;
        operators := fst plan;
        selectors := snd plan;
        num_iterations := threshold_iterations;
        num_dimensions := Pop.num_dimensions population;
        num_agents := num_agents;
        historical_global_fitness := [];
        historical_global_position := [];
        historical_centroid := [];
        historical_radius := [];
        historical_stagnation := [];
        verbose := verbose |}.

(** Assignment to [self.pop] (the object is updated in place). *)
Definition set_pop (self : Metaheuristic) (p : Pop.Population S) : Metaheuristic :=
  {| pop := p;
     operators := operators self;
     selectors := selectors self;
     num_iterations := num_iterations self;
     num_dimensions := num_dimensions self;
     num_agents := num_agents self;
     historical_global_fitness := historical_global_fitness self;
     historical_global_position := historical_global_position self;
     historical_centroid := historical_centroid self;
     historical_radius := historical_radius self;
     historical_stagnation := historical_stagnation self;
     verbose := verbose self |}.

(** A call [self.pop.m(...)]. *)
Definition call (m : Pop.method S) (self : Metaheuristic) : result Metaheuristic :=
  match m (pop self) with
  | inr p => Ok (set_pop self p)
  | inl name => Raise (PortError name)
  end.

(** The statement [exec(source)]. *)
Definition evaluate (source : string) (self : Metaheuristic) : result Metaheuristic :=
  match exec source self with
  | inr self' => Ok self'
  | inl name => Raise (PortError name)
  end.

(** The stagnation counter of [__update_historicals]; [fitness] is
    [historical_global_fitness] after the new value was appended,
    [stagnation] is [historical_stagnation] before the new one is. *)
Definition instantaneous_stagnation (iteration : Z) (fitness : list float)
    (stagnation : list Z) : result Z :=
  if (iteration >? 0)%Z then
    previous <- index_neg fitness 2 ;;
    current <- index_neg fitness 1 ;;
    if PrimFloat.eqb previous current then
      last <- index_neg stagnation 1 ;;
      Ok (last + 1)
    else Ok 0
  else Ok 0.

(** [Metaheuristic.__update_historicals] *)
Definition update_historicals (self : Metaheuristic) : result Metaheuristic :=
  let fitness :=
    append (historical_global_fitness self) (Pop.global_best_fitness (pop self)) in
  let position :=
    append (historical_global_position self) (Pop.global_best_position (pop self)) in
  centroid <- Np.mean0 reduce (Pop.positions (pop self)) ;;
  radius <- radius_of reduce (num_agents self) (Pop.positions (pop self)) centroid ;;
  stagnation <-
    instantaneous_stagnation (Pop.iteration (pop self)) fitness
      (historical_stagnation self) ;;
  Ok {| pop := pop self;
        operators := operators self;
        selectors := selectors self;
        num_iterations := num_iterations self;
        num_dimensions := num_dimensions self;
        num_agents := num_agents self;
        historical_global_fitness := fitness;
        historical_global_position := position;
        historical_centroid := centroid;
        historical_radius := append (historical_radius self) radius;
        historical_stagnation := append (historical_stagnation self) stagnation;
        verbose := verbose self |}.

(** The population-level update of a step: [selector in pop.__selection__]
    decides between the step's selector and the default. *)
Definition update_population (selector : string) (self : Metaheuristic)
  : result Metaheuristic :=
  if existsb (String.eqb selector) (Pop.selection port) then
    call (Pop.update_positions port "population" selector) self
  else
    call (Pop.update_positions_default port) self.

(** The body of the inner loop of [run]: one operator and its selector. *)
Definition apply_step (step : string * string) (self : Metaheuristic)
  : result Metaheuristic :=
  let (operator, selector) := step in
  self <- evaluate ("self.pop." ++ operator) self ;;
  self <- call (Pop.evaluate_fitness port) self ;;
  self <- update_population selector self ;;
  call (Pop.update_positions port "global" "greedy") self.

(** The arguments of the two reports printed after an iteration are
    evaluated whether [verbose] is set or not: the last stagnation counter,
    the last radius, [self.pop.get_state()].  The printed text is not
    modelled. *)
Definition report (self : Metaheuristic) : result Metaheuristic :=
  _ <- index_neg (historical_stagnation self) 1 ;;
  _ <- index_neg (historical_radius self) 1 ;;
  match Pop.get_state port (pop self) with
  | inr _ => Ok self
  | inl name => Raise (PortError name)
  end.

(** The body of the outer loop of [run].  The inner loop runs over
    [zip(self.operators, self.selectors)], the two lists as the engine holds
    them when the loop starts: a text that binds [self.operators] to another
    list has its effect from the next iteration on.  (A text that changes
    one of the two lists in place while the loop runs over it is not
    followed.) *)
Definition iterate (iteration : Z) (self : Metaheuristic) : result Metaheuristic :=
  let self := set_pop self (Pop.set_iteration iteration (pop self)) in
  self <- for_each apply_step (combine (operators self) (selectors self)) self ;;
  self <- update_historicals self ;;
  report self.

(** [Metaheuristic.run]; [range(1, self.num_iterations + 1)] is evaluated
    once, when the outer loop starts. *)
Definition run (self : Metaheuristic) : result Metaheuristic :=
  let self := set_pop self (Pop.set_iteration 0 (pop self)) in
  self <- call (Pop.initialise_uniformly port) self ;;
  self <- call (Pop.evaluate_fitness port) self ;;
  self <- call (Pop.update_positions_default port) self ;;
  self <- call (Pop.update_positions port "particular" "all") self ;;
  self <- call (Pop.update_positions port "global" "greedy") self ;;
  self <- update_historicals self ;;
  for_each iterate (range 1 (num_iterations self + 1)) self.

(** *** The order of a run, as the specification words it

    Bootstrap; then, for k = 1 .. num_iterations: set the counter, run every
    step of the plan in declared order (operator, fitness evaluation,
    population-level update, global greedy update), record, report. *)

Definition perform (a : action) (self : Metaheuristic) : result Metaheuristic :=
  match a with
  | SetIteration k => Ok (set_pop self (Pop.set_iteration k (pop self)))
  | InitialiseUniformly => call (Pop.initialise_uniformly port) self
  | EvaluateFitness => call (Pop.evaluate_fitness port) self
  | UpdatePositions level selector => call (Pop.update_positions port level selector) self
  | Exec source => evaluate source self
  | UpdateHistoricals => update_historicals self
  | Report => report self
  end.

Definition perform_all (l : list action) (self : Metaheuristic) : result Metaheuristic :=
  for_each perform l self.

(** [selector in pop.__selection__], decided on the list. *)
Definition recognisedb (selector : string) : bool :=
  if in_dec string_dec selector (Pop.selection port) then true else false.

Definition bootstrap_schedule : list action :=
  [SetIteration 0; InitialiseUniformly; EvaluateFitness;
   UpdatePositions "population" "all"; UpdatePositions "particular" "all";
   UpdatePositions "global" "greedy"; UpdateHistoricals].

Definition step_schedule (step : string * string) : list action :=
  [Exec ("self.pop." ++ fst step);
   EvaluateFitness;
   UpdatePositions "population" (if recognisedb (snd step) then snd step else "all");
   UpdatePositions "global" "greedy"].

Definition iteration_schedule (plan : list (string * string)) (k : Z) : list action :=
  (SetIteration k :: flat_map step_schedule plan ++ [UpdateHistoricals; Report])%list.

Definition run_schedule (plan : list (string * string)) (T : Z) : list action :=
  (bootstrap_schedule ++ flat_map (iteration_schedule plan) (range 1 (T + 1)))%list.

End Engine.

Arguments pop {S} _.
Arguments operators {S} _.
Arguments selectors {S} _.
Arguments num_iterations {S} _.
Arguments num_dimensions {S} _.
Arguments num_agents {S} _.
Arguments historical_global_fitness {S} _.
Arguments historical_global_position {S} _.
Arguments historical_centroid {S} _.
Arguments historical_radius {S} _.
Arguments historical_stagnation {S} _.
Arguments verbose {S} _.
Arguments init {S} _ _ _ _ _.
Arguments set_pop {S} _ _.
Arguments call {S} _ _.
Arguments evaluate {S} _ _ _.
Arguments update_historicals {S} _ _.
Arguments update_population {S} _ _ _.
Arguments apply_step {S} _ _ _ _.
Arguments report {S} _ _.
Arguments iterate {S} _ _ _ _ _.
Arguments run {S} _ _ _ _.
Arguments perform {S} _ _ _ _ _.
Arguments perform_all {S} _ _ _ _ _.
Arguments recognisedb {S} _ _.
Arguments step_schedule {S} _ _.
Arguments iteration_schedule {S} _ _ _.
Arguments run_schedule {S} _ _ _.

(** ** The vocabulary of the properties *)

(** The attributes set by [__init__] and never assigned again by the
    statements of the engine. *)
Definition same_config {S : Type} (self self' : Metaheuristic S) : Prop :=
  operators self' = operators self
  /\ selectors self' = selectors self
  /\ num_iterations self' = num_iterations self
  /\ num_agents self' = num_agents self.

Definition same_history {S : Type} (self self' : Metaheuristic S) : Prop :=
  historical_global_fitness self' = historical_global_fitness self
  /\ historical_global_position self' = historical_global_position self
  /\ historical_centroid self' = historical_centroid self
  /\ historical_radius self' = historical_radius self
  /\ historical_stagnation self' = historical_stagnation self.

(** Only the population may differ between the two engines. *)
Definition step_frame {S : Type} (self self' : Metaheuristic S) : Prop :=
  same_config self self' /\ same_history self self'.

(** A text whose evaluation touches the population only: it leaves the plan,
    the sizes and the histories of the engine as they are.  Nothing in the
    engine makes a text such a one; the texts of the operators of a
    population are. *)
Definition touches_population_only {S : Type} (exec : evaluator S) (source : string)
  : Prop :=
  forall self self', exec source self = inr self' -> step_frame self self'.

(** The operators of a plan, as [run] evaluates them, touch the population
    only. *)
Definition plan_touches_population_only {S : Type} (exec : evaluator S)
    (operators : list string) : Prop :=
  forall operator, In operator operators ->
                   touches_population_only exec ("self.pop." ++ operator).

(** A text whose evaluation leaves the attribute [iteration] of the
    population alone. *)
Definition keeps_counter {S : Type} (exec : evaluator S) (source : string) : Prop :=
  forall self self',
    exec source self = inr self' -> Pop.iteration (pop self') = Pop.iteration (pop self).

(** The operators of a plan, as [run] evaluates them, leave the counter
    alone. *)
Definition plan_keeps_iteration {S : Type} (exec : evaluator S)
    (operators : list string) : Prop :=
  forall operator, In operator operators ->
                   keeps_counter exec ("self.pop." ++ operator).

(** No text at all assigns the counter. *)
Definition exec_keeps_iteration {S : Type} (exec : evaluator S) : Prop :=
  forall source, keeps_counter exec source.

(** The four sequences that [__update_historicals] appends to all hold [n]
    entries. *)
Definition history_length {S : Type} (n : nat) (self : Metaheuristic S) : Prop :=
  List.length (historical_global_fitness self) = n
  /\ List.length (historical_global_position self) = n
  /\ List.length (historical_radius self) = n
  /\ List.length (historical_stagnation self) = n.

(** [stagnation] counts the unchanged values of [fitness]: the first counter
    is 0, every later one continues the count or restarts it. *)
Definition stagnation_tracks (fitness : list float) (stagnation : list Z) : Prop :=
  List.length stagnation = List.length fitness
  /\ nth_error stagnation 0 = Some 0
  /\ forall i f0 f1 s0,
       nth_error fitness i = Some f0 ->
       nth_error fitness (i + 1) = Some f1 ->
       nth_error stagnation i = Some s0 ->
       nth_error stagnation (i + 1) = Some (if PrimFloat.eqb f0 f1 then s0 + 1 else 0).

Definition tracked {S : Type} (self : Metaheuristic S) : Prop :=
  stagnation_tracks (historical_global_fitness self) (historical_stagnation self).

(** [historical_centroid] is the centroid of the current positions. *)
Definition holds_current_centroid {S : Type} (reduce : Np.reduction)
    (self : Metaheuristic S) : Prop :=
  Np.mean0 reduce (Pop.positions (pop self)) = Ok (historical_centroid self).

(** [r >= 0] holds, or [r] is NaN (and every comparison with it fails). *)
Definition nonneg_or_nan (r : float) : Prop :=
  PrimFloat.is_nan r = true \/ PrimFloat.leb 0 r = true.

(** Classes of binary64 values, on their specification: the numbers, the
    numbers of sign plus, the finite numbers. *)
Definition is_number (x : spec_float) : Prop := x <> S754_nan.

Definition nonneg_number (x : spec_float) : Prop :=
  x = S754_zero false \/ x = S754_infinity false
  \/ exists m e, x = S754_finite false m e.

Definition finite_number (x : spec_float) : Prop :=
  (exists s, x = S754_zero s) \/ exists s m e, x = S754_finite s m e.

Definition radii_nonneg_or_nan {S : Type} (self : Metaheuristic S) : Prop :=
  Forall nonneg_or_nan (historical_radius self).

Definition operator_of (h : descriptor) : string := fst (fst h).

Definition parameters_of (h : descriptor) : list (string * value) := snd (fst h).

Definition selector_of (h : descriptor) : string := snd h.

(** The text of one keyword argument. *)
Definition argument_text (pv : string * value) : string :=
  match snd pv with
  | VStr s => fst pv ++ " = '" ++ s ++ "'"
  | v => fst pv ++ " = " ++ format_value v
  end.

(** The Python source text that [process_heuristics] stores for a
    descriptor: a call of the operator with keyword arguments. *)
Definition source_text (h : descriptor) : string :=
  operator_of h ++ "(" ++ join "," (map argument_text (parameters_of h)) ++ ")".

(** The texts of the operators that a schedule evaluates. *)
Definition evaluated_texts (schedule : list action) : list string :=
  flat_map (fun a => match a with Exec source => [source] | _ => [] end) schedule.

(** ** A synthetic population and an interpreter for a few statements

    A deterministic population that keeps a log of the calls it receives and
    of the texts that are evaluated.  The fitness of a position is its
    distance to the origin, to be minimised.

    The interpreter evaluates a text made of simple statements separated by
    a semicolon and a blank, one after the other, as Python does.  It knows
    two operators of the population, [self.pop.halve(...)], which halves
    every position, and [self.pop.stay(...)], which moves nothing, whatever
    their arguments; and five statements on the attributes of the engine.
    Every other statement names an attribute that does not exist. *)

Module Synthetic.

Definition State : Type := list action.

Definition log (a : action) (p : Pop.Population State) : Pop.Population State :=
  {| Pop.iteration := Pop.iteration p;
     Pop.num_dimensions := Pop.num_dimensions p;
     Pop.positions := Pop.positions p;
     Pop.global_best_fitness := Pop.global_best_fitness p;
     Pop.global_best_position := Pop.global_best_position p;
     Pop.internals := append (Pop.internals p) a |}.

Definition with_positions (x : list (list float)) (p : Pop.Population State)
  : Pop.Population State :=
  {| Pop.iteration := Pop.iteration p;
     Pop.num_dimensions := Pop.num_dimensions p;
     Pop.positions := x;
     Pop.global_best_fitness := Pop.global_best_fitness p;
     Pop.global_best_position := Pop.global_best_position p;
     Pop.internals := Pop.internals p |}.

Definition with_best (f : float) (x : list float) (p : Pop.Population State)
  : Pop.Population State :=
  {| Pop.iteration := Pop.iteration p;
     Pop.num_dimensions := Pop.num_dimensions p;
     Pop.positions := Pop.positions p;
     Pop.global_best_fitness := f;
     Pop.global_best_position := x;
     Pop.internals := Pop.internals p |}.

Definition fitness (x : list float) : float :=
  PrimFloat.sqrt (Np.in_order (map (fun d => PrimFloat.mul d d) x)).

(** The best of the current positions replaces the global best when it is
    at least as good. *)
Definition greedy (p : Pop.Population State) : Pop.Population State :=
  fold_left
    (fun q x =>
       if PrimFloat.leb (fitness x) (Pop.global_best_fitness q)
       then with_best (fitness x) x q else q)
    (Pop.positions p) p.

Definition halve (p : Pop.Population State) : Pop.Population State :=
  with_positions (map (map (fun d => PrimFloat.mul d 0.5%float)) (Pop.positions p)) p.

Definition port : Pop.Port State := {|
  Pop.initialise_uniformly := fun p => inr (log InitialiseUniformly p);
  Pop.evaluate_fitness := fun p => inr (log EvaluateFitness p);
  Pop.update_positions := fun level selector p =>
    let p := log (UpdatePositions level selector) p in
    inr (if String.eqb level "global" then greedy p else p);
  Pop.get_state := fun p => inr "synthetic population";
  Pop.selection := ["greedy"; "probabilistic"; "metropolis"; "all"; "none"]
|}.

(** Assignment to attributes of the engine. *)
Definition with_plan (ops : list string) (self : Metaheuristic State)
  : Metaheuristic State :=
  {| pop := pop self;
     operators := ops;
     selectors := selectors self;
     num_iterations := num_iterations self;
     num_dimensions := num_dimensions self;
     num_agents := num_agents self;
     historical_global_fitness := historical_global_fitness self;
     historical_global_position := historical_global_position self;
     historical_centroid := historical_centroid self;
     historical_radius := historical_radius self;
     historical_stagnation := historical_stagnation self;
     verbose := verbose self |}.

Definition with_histories (fitness radius : list float) (stagnation : list Z)
    (self : Metaheuristic State) : Metaheuristic State :=
  {| pop := pop self;
     operators := operators self;
     selectors := selectors self;
     num_iterations := num_iterations self;
     num_dimensions := num_dimensions self;
     num_agents := num_agents self;
     historical_global_fitness := fitness;
     historical_global_position := historical_global_position self;
     historical_centroid := historical_centroid self;
     historical_radius := radius;
     historical_stagnation := stagnation;
     verbose := verbose self |}.

(** The statements of a text. *)
Fixpoint statements (source : string) (current : string) : list string :=
  match source with
  | EmptyString => [current]
  | String ";" (String " " rest) => current :: statements rest ""
  | String c rest => statements rest (current ++ String c "")
  end.

(** One statement. *)
Definition statement (text : string) (self : Metaheuristic State)
  : string + Metaheuristic State :=
  if String.prefix "self.pop.halve(" text then
    inr (set_pop self (halve (pop self)))
  else if String.prefix "self.pop.stay(" text then
    inr self
  else if String.eqb text "self.historical_global_fitness.clear()" then
    inr (with_histories [] (historical_radius self) (historical_stagnation self) self)
  else if String.eqb text "self.historical_stagnation.clear()" then
    inr (with_histories (historical_global_fitness self) (historical_radius self) [] self)
  else if String.eqb text "self.historical_stagnation[-1] = 7" then
    match rev (historical_stagnation self) with
    | [] => inl "IndexError"
    | _ :: before =>
        inr (with_histories (historical_global_fitness self) (historical_radius self)
               (rev (7 :: before)) self)
    end
  else if String.eqb text "self.historical_radius.append(-1.0)" then
    inr (with_histories (historical_global_fitness self)
           (append (historical_radius self) (-1)%float) (historical_stagnation self) self)
  else if String.eqb text "self.operators = ['stay()']" then
    inr (with_plan ["stay()"] self)
  else inl "AttributeError".

Fixpoint sequence (texts : list string) (self : Metaheuristic State)
  : string + Metaheuristic State :=
  match texts with
  | [] => inr self
  | text :: rest =>
      match statement text self with
      | inr self' => sequence rest self'
      | inl name => inl name
      end
  end.

(** [exec(source)]: the text is logged, then its statements are carried out
    in order. *)
Definition exec : evaluator State :=
  fun source self =>
    sequence (statements source "") (set_pop self (log (Exec source) (pop self))).

(** One agent per given position, nothing logged, no best yet. *)
Definition population (x : list (list float)) : Pop.Population State :=
  {| Pop.iteration := 1;
     Pop.num_dimensions := 1;
     Pop.positions := x;
     Pop.global_best_fitness := infinity;
     Pop.global_best_position := [];
     Pop.internals := [] |}.

End Synthetic.

(** ** Populations and plans for the examples *)

(** Two agents on a line, at 8 and at 4; the plan halves the positions
    (greedy selection), then leaves them (a selector the population does not
    know); three iterations. *)
Definition demo_population : Pop.Population Synthetic.State :=
  Synthetic.population [[8%float]; [4%float]].

Definition demo_heuristics : list descriptor :=
  [("halve", [], "greedy"); ("stay", [("k", VInt 1)], "gredy")].

(** The same population with a plan that moves nothing. *)
Definition idle_heuristics : list descriptor := [("stay", [], "all")].

(** Descriptors whose texts reach beyond the population.  A parameter value
    that closes the call and goes on: the operator halves twice and empties
    the stagnation history in between. *)
Definition clearing_heuristics : list descriptor :=
  [("halve",
    [("k", VStr "0'); self.historical_stagnation.clear(); self.pop.halve(k = '0")],
    "greedy")].

(** An operator name that goes on after the call: the fitness history is
    emptied. *)
Definition forgetful_heuristics : list descriptor :=
  [("stay(); self.historical_global_fitness.clear(); self.pop.stay", [], "all")].

(** The last stagnation counter is overwritten. *)
Definition overwriting_heuristics : list descriptor :=
  [("stay(); self.historical_stagnation[-1] = 7; self.pop.stay", [], "all")].

(** A radius is appended by the text. *)
Definition appending_heuristics : list descriptor :=
  [("stay(); self.historical_radius.append(-1.0); self.pop.stay", [], "all")].

(** The plan is replaced by the text. *)
Definition rebinding_heuristics : list descriptor :=
  [("halve(); self.operators = ['stay()']; self.pop.stay", [], "greedy")].

(** The engine of the demonstration between its bootstrap and its first
    iteration, the positions halved. *)
Definition demo_recorded_once : Metaheuristic Synthetic.State :=
  {| pop := Synthetic.halve (Pop.set_iteration 1 (Synthetic.greedy demo_population));
     operators := ["halve()"];
     selectors := ["greedy"];
     num_iterations := 3;
     num_dimensions := 1;
     num_agents := 2;
     historical_global_fitness := [4%float];
     historical_global_position := [[4%float]];
     historical_centroid := [6%float];
     historical_radius := [2%float];
     historical_stagnation := [0];
     verbose := false |}.

(** The binary64 number nearest to 0.1. *)
Definition tenth : float := 0x1.999999999999ap-4%float.

(** Three agents, all at 0.1. *)
Definition coincident_population : Pop.Population Synthetic.State :=
  Synthetic.population [[tenth]; [tenth]; [tenth]].

(** Two agents at (0.5, 0.25): their mean is exact, the radius is 0. *)
Definition paired_population : Pop.Population Synthetic.State :=
  Synthetic.population [[0.5%float; 0.25%float]; [0.5%float; 0.25%float]].

(** ** The performance figure and further vocabulary *)

(** [ax.plot(x, y)]: matplotlib refuses abscissae and ordinates of different
    lengths ([ValueError]); the drawing itself is not modelled. *)
Definition plot {A B : Type} (x : list A) (y : list B) : result unit :=
  if Nat.eqb (List.length x) (List.length y) then Ok tt else Raise ValueError.

(** [Metaheuristic.show_performance]: the global fitness, then the radius,
    each against [np.arange(0, self.num_iterations + 1)]. *)
Definition show_performance {S : Type} (self : Metaheuristic S) : result unit :=
  _ <- plot (range 0 (num_iterations self + 1)) (historical_global_fitness self) ;;
  plot (range 0 (num_iterations self + 1)) (historical_radius self).

(** The positions form an array of [n] rows ([n >= 1]) of one length: the
    shape for which the centroid and the radius are computed. *)
Definition is_array (n : Z) (x : list (list float)) : bool :=
  (0 <? n)%Z && Nat.eqb (List.length x) (Z.to_nat n) && Np.is_matrix x.

(** The positions of the engine's population are an array of [num_agents]
    rows. *)
Definition arrayed {S : Type} (self : Metaheuristic S) : Prop :=
  is_array (num_agents self) (Pop.positions (pop self)) = true.

(** What the statements of a run keep: an array of [n = num_agents] rows
    and the plan. *)
Definition ready {S : Type} (n : Z) (ops : list string) (self : Metaheuristic S) : Prop :=
  arrayed self /\ num_agents self = n /\ operators self = ops.

(** A method that returns whenever the positions are an array of [n] rows,
    and leaves them such an array. *)
Definition keeps_array {S : Type} (n : Z) (m : Pop.method S) : Prop :=
  forall p, is_array n (Pop.positions p) = true ->
            exists p', m p = inr p' /\ is_array n (Pop.positions p') = true.

(** The calls of [update_positions] that [run] makes: at the population
    level with a selector of [pop.__selection__] or with the default, at
    the particular level with [all], at the global level with [greedy]. *)
Definition run_updates {S : Type} (port : Pop.Port S) (level selector : string) : Prop :=
  (level = "population" /\ (In selector (Pop.selection port) \/ selector = "all"))
  \/ (level = "particular" /\ selector = "all")
  \/ (level = "global" /\ selector = "greedy").

(** A population of [n] agents none of whose methods raises, where [run]
    calls them. *)
Definition port_serves {S : Type} (port : Pop.Port S) (n : Z) : Prop :=
  keeps_array n (Pop.initialise_uniformly port)
  /\ keeps_array n (Pop.evaluate_fitness port)
  /\ (forall level selector, run_updates port level selector ->
                             keeps_array n (Pop.update_positions port level selector))
  /\ (forall p, exists text, Pop.get_state port p = inr text).

(** The operators of a plan are evaluated without an exception and leave
    the positions an array of [n] rows. *)
Definition exec_serves {S : Type} (exec : evaluator S) (n : Z) (operators : list string)
  : Prop :=
  forall operator self,
    In operator operators -> is_array n (Pop.positions (pop self)) = true ->
    exists self', exec ("self.pop." ++ operator) self = inr self'
                  /\ is_array n (Pop.positions (pop self')) = true.

(** A method under which the global best fitness moves along [R] only. *)
Definition improves {S : Type} (R : float -> float -> Prop) (m : Pop.method S) : Prop :=
  forall p p', m p = inr p' -> R (Pop.global_best_fitness p) (Pop.global_best_fitness p').

Definition port_improves {S : Type} (R : float -> float -> Prop) (port : Pop.Port S)
  : Prop :=
  improves R (Pop.initialise_uniformly port)
  /\ improves R (Pop.evaluate_fitness port)
  /\ (forall level selector, improves R (Pop.update_positions port level selector)).

Definition exec_improves {S : Type} (R : float -> float -> Prop) (exec : evaluator S)
  : Prop :=
  forall source self self',
    exec source self = inr self' ->
    R (Pop.global_best_fitness (pop self)) (Pop.global_best_fitness (pop self')).

(** [b] is reached from [a] by steps none of which goes up. *)
Definition never_up : float -> float -> Prop :=
  clos_refl_trans float (fun a b => PrimFloat.leb b a = true).

(** Consecutive entries of the fitness history are related by [R], and the
    last one is related to the global best that the population holds. *)
Definition ordered_history {S : Type} (R : float -> float -> Prop)
    (self : Metaheuristic S) : Prop :=
  (forall i a b,
     nth_error (historical_global_fitness self) i = Some a ->
     nth_error (historical_global_fitness self) (i + 1) = Some b -> R a b)
  /\ (forall a, index_neg (historical_global_fitness self) 1 = Ok a ->
                R a (Pop.global_best_fitness (pop self))).


(** The histories of [self'] are those of [self] with [k] entries appended
    to each of the four sequences. *)
Definition extends_by {S : Type} (k : nat) (self self' : Metaheuristic S) : Prop :=
  exists fitness position radius stagnation,
    historical_global_fitness self' = (historical_global_fitness self ++ fitness)%list
    /\ historical_global_position self'
       = (historical_global_position self ++ position)%list
    /\ historical_radius self' = (historical_radius self ++ radius)%list
    /\ historical_stagnation self' = (historical_stagnation self ++ stagnation)%list
    /\ List.length fitness = k /\ List.length position = k
    /\ List.length radius = k /\ List.length stagnation = k.

(** The last entries of the fitness and position histories are the global
    best that the population holds. *)
Definition holds_current_best {S : Type} (self : Metaheuristic S) : Prop :=
  index_neg (historical_global_fitness self) 1
  = Ok (Pop.global_best_fitness (pop self))
  /\ index_neg (historical_global_position self) 1
     = Ok (Pop.global_best_position (pop self)).

(** * Properties *)

(** ** The error monad, loops and negative indices *)

Lemma bind_Ok {A B : Type} (r : result A) (k : A -> result B) (b : B) :
  bind r k = Ok b -> exists a, r = Ok a /\ k a = Ok b.
Proof.
  destruct r as [a|e]; simpl; intros H; [eauto | discriminate].
Qed.

Lemma bind_Raise {A B : Type} (r : result A) (k : A -> result B) (e : exception) :
  bind r k = Raise e -> r = Raise e \/ exists a, r = Ok a /\ k a = Raise e.
Proof.
  destruct r as [a|e']; simpl; intros H; [right; eauto | left; congruence].
Qed.

Lemma for_each_app {A St : Type} (body : A -> St -> result St) (l1 l2 : list A) (s : St) :
  for_each body (l1 ++ l2)%list s = bind (for_each body l1 s) (for_each body l2).
Proof.
  revert s; induction l1 as [|x l1 IH]; intros s; simpl; [reflexivity|].
  destruct (body x s) as [s'|e]; simpl; [apply IH | reflexivity].
Qed.

Lemma for_each_ext {A St : Type} (f g : A -> St -> result St) (l : list A) (s : St) :
  (forall x s, f x s = g x s) -> for_each f l s = for_each g l s.
Proof.
  intros E; revert s; induction l as [|x l IH]; intros s; simpl; [reflexivity|].
  rewrite E. destruct (g x s); simpl; auto.
Qed.

Lemma range_length (a b : Z) : List.length (range a b) = Z.to_nat (b - a).
Proof. unfold range. now rewrite length_map, length_seq. Qed.

Lemma range_In (a b k : Z) : In k (range a b) -> a <= k < b.
Proof.
  unfold range. rewrite in_map_iff. intros (i & <- & Hi).
  apply in_seq in Hi. lia.
Qed.

Lemma index_neg_last {A : Type} (l : list A) (x : A) : index_neg (append l x) 1 = Ok x.
Proof. unfold index_neg, append. rewrite rev_app_distr. reflexivity. Qed.

Lemma index_neg_before_last {A : Type} (l : list A) (x : A) :
  index_neg (append l x) 2 = index_neg l 1.
Proof. unfold index_neg, append. rewrite rev_app_distr. reflexivity. Qed.

Lemma index_neg_1_nonempty {A : Type} (l : list A) :
  l <> [] -> exists x, index_neg l 1 = Ok x /\ nth_error l (pred (List.length l)) = Some x.
Proof.
  destruct (rev l) as [|x r] eqn:E.
  - intros H. destruct H. apply (f_equal (@rev A)) in E.
    now rewrite rev_involutive in E.
  - intros _. exists x. unfold index_neg. rewrite E. split; [reflexivity|].
    apply (f_equal (@rev A)) in E. rewrite rev_involutive in E. subst l. simpl.
    rewrite length_app. simpl. rewrite Nat.add_1_r. simpl.
    rewrite nth_error_app2 by lia. now rewrite Nat.sub_diag.
Qed.

Lemma nth_error_append {A : Type} (l : list A) (x : A) (i : nat) :
  nth_error (append l x) i =
    if Nat.ltb i (List.length l) then nth_error l i
    else if Nat.eqb i (List.length l) then Some x else None.
Proof.
  unfold append. destruct (Nat.ltb_spec i (List.length l)) as [H|H].
  - now apply nth_error_app1.
  - rewrite nth_error_app2 by lia. destruct (Nat.eqb_spec i (List.length l)) as [E|E].
    + subst. now rewrite Nat.sub_diag.
    + destruct (i - List.length l)%nat as [|n] eqn:D; [lia|]. simpl. now destruct n.
Qed.

Lemma length_append {A : Type} (l : list A) (x : A) :
  List.length (append l x) = Datatypes.S (List.length l).
Proof. unfold append. rewrite length_app. simpl. lia. Qed.

Lemma for_each_related {A St : Type} (body : A -> St -> result St) (R : St -> St -> Prop) :
  (forall s, R s s) ->
  (forall s1 s2 s3, R s1 s2 -> R s2 s3 -> R s1 s3) ->
  forall (P : A -> Prop),
  (forall x s s', P x -> body x s = Ok s' -> R s s') ->
  forall l s s', Forall P l -> for_each body l s = Ok s' -> R s s'.
Proof.
  intros Rrefl Rtrans P Hbody l; induction l as [|x l IH]; intros s s' HP H; simpl in H.
  - injection H as <-. apply Rrefl.
  - apply bind_Ok in H as (s1 & H1 & H2). inversion HP; subst.
    eapply Rtrans; [eapply Hbody; eassumption | eapply IH; eassumption].
Qed.

(** ** What the statements of the engine change and what they leave alone *)

Section EngineFacts.

Variable S : Type.
Variable exec : evaluator S.
Variable port : Pop.Port S.

Implicit Types self : Metaheuristic S.

Lemma same_config_refl self : same_config self self.
Proof. repeat split. Qed.

Lemma same_config_trans (s1 s2 s3 : Metaheuristic S) :
  same_config s1 s2 -> same_config s2 s3 -> same_config s1 s3.
Proof. unfold same_config. intuition congruence. Qed.

Lemma same_history_refl self : same_history self self.
Proof. repeat split. Qed.

Lemma same_history_trans (s1 s2 s3 : Metaheuristic S) :
  same_history s1 s2 -> same_history s2 s3 -> same_history s1 s3.
Proof. unfold same_history. intuition congruence. Qed.

Lemma call_Ok (m : Pop.method S) self self' :
  call m self = Ok self' -> exists p, m (pop self) = inr p /\ self' = set_pop self p.
Proof.
  unfold call. destruct (m (pop self)) as [n|p]; intros H; [discriminate|].
  injection H as <-. eauto.
Qed.

Lemma call_Raise (m : Pop.method S) self e :
  call m self = Raise e -> exists name, e = PortError name.
Proof.
  unfold call. destruct (m (pop self)) as [n|p]; intros H; [|discriminate].
  injection H as <-. eauto.
Qed.

Lemma call_frame (m : Pop.method S) self self' :
  call m self = Ok self' -> same_config self self' /\ same_history self self'.
Proof.
  intros H. apply call_Ok in H as (p & _ & ->). split; repeat split.
Qed.

Lemma call_iteration (m : Pop.method S) self self' :
  Pop.keeps_iteration m -> call m self = Ok self' ->
  Pop.iteration (pop self') = Pop.iteration (pop self).
Proof.
  intros Hm H. apply call_Ok in H as (p & Hp & ->). simpl. now apply Hm.
Qed.

Lemma evaluate_Ok source self self' :
  evaluate exec source self = Ok self' -> exec source self = inr self'.
Proof.
  unfold evaluate. destruct (exec source self) as [n|s]; intros H; [discriminate|].
  now injection H as <-.
Qed.

Lemma evaluate_Raise source self e :
  evaluate exec source self = Raise e -> exists name, e = PortError name.
Proof.
  unfold evaluate. destruct (exec source self) as [n|s]; intros H; [|discriminate].
  injection H as <-. eauto.
Qed.

Lemma step_frame_refl self : step_frame self self.
Proof. split; [apply same_config_refl | apply same_history_refl]. Qed.

Lemma step_frame_trans (s1 s2 s3 : Metaheuristic S) :
  step_frame s1 s2 -> step_frame s2 s3 -> step_frame s1 s3.
Proof.
  intros [A B] [C D]. split;
    [eapply same_config_trans | eapply same_history_trans]; eassumption.
Qed.

Lemma update_population_Ok selector self self' :
  update_population port selector self = Ok self' ->
  exists sel, call (Pop.update_positions port "population" sel) self = Ok self'.
Proof.
  unfold update_population, Pop.update_positions_default.
  destruct (existsb _ _); eauto.
Qed.

Lemma update_population_Raise selector self e :
  update_population port selector self = Raise e -> exists name, e = PortError name.
Proof.
  unfold update_population. destruct (existsb _ _); apply call_Raise.
Qed.

(** The four statements of a step, taken apart. *)
Lemma apply_step_Ok operator selector self self' :
  apply_step exec port (operator, selector) self = Ok self' ->
  exists s1 s2 s3 sel,
    exec ("self.pop." ++ operator) self = inr s1
    /\ call (Pop.evaluate_fitness port) s1 = Ok s2
    /\ call (Pop.update_positions port "population" sel) s2 = Ok s3
    /\ call (Pop.update_positions port "global" "greedy") s3 = Ok self'.
Proof.
  unfold apply_step. intros H.
  apply bind_Ok in H as (s1 & H1 & H).
  apply bind_Ok in H as (s2 & H2 & H).
  apply bind_Ok in H as (s3 & H3 & H4).
  apply update_population_Ok in H3 as (sel & H3).
  apply evaluate_Ok in H1. exists s1, s2, s3, sel. auto.
Qed.

(** A step whose operator touches the population only does so itself. *)
Lemma apply_step_frame step self self' :
  touches_population_only exec ("self.pop." ++ fst step) ->
  apply_step exec port step self = Ok self' -> step_frame self self'.
Proof.
  destruct step as [operator selector]. intros F H.
  apply apply_step_Ok in H as (s1 & s2 & s3 & sel & H1 & H2 & H3 & H4).
  apply F in H1. apply call_frame in H2, H3, H4.
  eapply step_frame_trans; [exact H1|].
  eapply step_frame_trans; [exact H2|].
  eapply step_frame_trans; [exact H3| exact H4].
Qed.

Lemma apply_step_iteration step self self' :
  Pop.port_keeps_iteration port -> keeps_counter exec ("self.pop." ++ fst step) ->
  apply_step exec port step self = Ok self' ->
  Pop.iteration (pop self') = Pop.iteration (pop self).
Proof.
  intros (Ki & Ke & Ku) Kx. destruct step as [operator selector]. intros H.
  apply apply_step_Ok in H as (s1 & s2 & s3 & sel & H1 & H2 & H3 & H4).
  apply Kx in H1. apply call_iteration in H2, H3, H4; auto. congruence.
Qed.

Lemma apply_step_Raise step self e :
  apply_step exec port step self = Raise e -> exists name, e = PortError name.
Proof.
  destruct step as [operator selector]. unfold apply_step. intros H.
  apply bind_Raise in H as [H|(s1 & _ & H)]; [now apply evaluate_Raise in H|].
  apply bind_Raise in H as [H|(s2 & _ & H)]; [now apply call_Raise in H|].
  apply bind_Raise in H as [H|(s3 & _ & H)];
    [now apply update_population_Raise in H | now apply call_Raise in H].
Qed.

Lemma steps_frame plan self self' :
  Forall (fun step => touches_population_only exec ("self.pop." ++ fst step)) plan ->
  for_each (apply_step exec port) plan self = Ok self' -> step_frame self self'.
Proof.
  intros F.
  apply (for_each_related (apply_step exec port) step_frame step_frame_refl
           step_frame_trans
           (fun step => touches_population_only exec ("self.pop." ++ fst step))).
  - intros x s s'. apply apply_step_frame.
  - exact F.
Qed.

(** The steps that the plan of an engine gives are steps of its operators. *)
Lemma plan_steps (ops sels : list string) :
  plan_touches_population_only exec ops ->
  Forall (fun step => touches_population_only exec ("self.pop." ++ fst step))
         (combine ops sels).
Proof.
  intros F. apply Forall_forall. intros [operator selector] Hin.
  apply in_combine_l in Hin. now apply F.
Qed.

Lemma steps_iteration plan self self' :
  Pop.port_keeps_iteration port ->
  Forall (fun step => keeps_counter exec ("self.pop." ++ fst step)) plan ->
  for_each (apply_step exec port) plan self = Ok self' ->
  Pop.iteration (pop self') = Pop.iteration (pop self).
Proof.
  intros K Kx.
  apply (for_each_related (apply_step exec port)
           (fun s s' => Pop.iteration (pop s') = Pop.iteration (pop s))
           (fun s => eq_refl) (fun s1 s2 s3 A B => eq_trans B A)
           (fun step => keeps_counter exec ("self.pop." ++ fst step))).
  - intros x s s' Hx. now apply apply_step_iteration.
  - exact Kx.
Qed.

Lemma plan_steps_counter (ops sels : list string) :
  plan_keeps_iteration exec ops ->
  Forall (fun step => keeps_counter exec ("self.pop." ++ fst step)) (combine ops sels).
Proof.
  intros K. apply Forall_forall. intros [operator selector] Hin.
  apply in_combine_l in Hin. now apply K.
Qed.

Lemma any_steps_counter (plan : list (string * string)) :
  exec_keeps_iteration exec ->
  Forall (fun step => keeps_counter exec ("self.pop." ++ fst step)) plan.
Proof. intros K. apply Forall_forall. intros step _. apply K. Qed.

Lemma any_plan_keeps_iteration (ops : list string) :
  exec_keeps_iteration exec -> plan_keeps_iteration exec ops.
Proof. intros K operator _. apply K. Qed.

Lemma steps_Raise plan self e :
  for_each (apply_step exec port) plan self = Raise e -> exists name, e = PortError name.
Proof.
  revert self; induction plan as [|step plan IH]; intros self H; simpl in H.
  - discriminate.
  - apply bind_Raise in H as [H|(s1 & _ & H)]; [now apply apply_step_Raise in H | eauto].
Qed.

End EngineFacts.
(** ** The historical tracker *)

Lemma mean0_Raise (reduce : Np.reduction) (rows : list (list float)) (e : exception) :
  Np.mean0 reduce rows = Raise e -> e = ValueError.
Proof.
  unfold Np.mean0. destruct rows as [|r rs]; [congruence|].
  destruct (Np.is_matrix (r :: rs)); congruence.
Qed.

Lemma sub_tile_Raise (x : list (list float)) (c : list float) (n : Z) (e : exception) :
  Np.sub_tile x c n = Raise e -> e = ValueError.
Proof.
  unfold Np.sub_tile. destruct (n <? 0)%Z; [congruence|].
  destruct (_ && _); [|congruence].
  destruct (_ || _); [congruence|]. destruct (Nat.eqb _ 1); congruence.
Qed.

Lemma radius_of_Raise (reduce : Np.reduction) (n : Z) (x : list (list float))
    (c : list float) (e : exception) :
  radius_of reduce n x c = Raise e -> e = ValueError.
Proof.
  unfold radius_of. intros H.
  apply bind_Raise in H as [H|(d & _ & H)]; [now apply sub_tile_Raise in H|].
  unfold Np.max in H. destruct (Np.norm2_rows reduce d); congruence.
Qed.

Lemma stagnation_first (iteration : Z) (f : float) :
  iteration <= 0 -> instantaneous_stagnation iteration [f] [] = Ok 0.
Proof.
  intros H. unfold instantaneous_stagnation.
  rewrite Z.gtb_ltb. destruct (Z.ltb_spec 0 iteration); [lia | reflexivity].
Qed.

Lemma stagnation_not_positive (iteration : Z) (fitness : list float) (stagnation : list Z) :
  iteration <= 0 -> instantaneous_stagnation iteration fitness stagnation = Ok 0.
Proof.
  intros H. unfold instantaneous_stagnation.
  rewrite Z.gtb_ltb. destruct (Z.ltb_spec 0 iteration); [lia | reflexivity].
Qed.

Lemma stagnation_next (iteration : Z) (fitness : list float) (stagnation : list Z)
    (f0 f : float) (s0 : Z) :
  0 < iteration ->
  index_neg fitness 1 = Ok f0 ->
  index_neg stagnation 1 = Ok s0 ->
  instantaneous_stagnation iteration (append fitness f) stagnation
  = Ok (if PrimFloat.eqb f0 f then s0 + 1 else 0).
Proof.
  intros H Hf Hs. unfold instantaneous_stagnation.
  rewrite Z.gtb_ltb. destruct (Z.ltb_spec 0 iteration); [|lia].
  rewrite index_neg_before_last, index_neg_last, Hf. simpl.
  destruct (PrimFloat.eqb f0 f); [|reflexivity]. now rewrite Hs.
Qed.

Lemma stagnation_tracks_first (f : float) : stagnation_tracks [f] [0].
Proof.
  split; [reflexivity|]. split; [reflexivity|].
  intros i f0 f1 s0 _ H. rewrite Nat.add_1_r in H. simpl in H.
  now destruct i.
Qed.

Lemma stagnation_tracks_next (fitness : list float) (stagnation : list Z)
    (f0 f : float) (s0 : Z) :
  stagnation_tracks fitness stagnation ->
  index_neg fitness 1 = Ok f0 ->
  index_neg stagnation 1 = Ok s0 ->
  stagnation_tracks (append fitness f)
    (append stagnation (if PrimFloat.eqb f0 f then s0 + 1 else 0)).
Proof.
  intros (Hlen & H0 & Hstep) Hf Hs.
  assert (Hne : fitness <> []).
  { intros ->. destruct stagnation; simpl in *; discriminate. }
  assert (Hne' : stagnation <> []).
  { intros ->. simpl in H0. discriminate. }
  destruct (index_neg_1_nonempty fitness Hne) as (f0' & Ef & Nf).
  destruct (index_neg_1_nonempty stagnation Hne') as (s0' & Es & Ns).
  assert (f0' = f0) by congruence. assert (s0' = s0) by congruence. subst f0' s0'.
  assert (Hpos : (0 < List.length fitness)%nat).
  { destruct fitness; [congruence | simpl; lia]. }
  split; [now rewrite !length_append, Hlen|].
  split.
  { rewrite nth_error_append. destruct (Nat.ltb_spec 0 (List.length stagnation)); [assumption|lia]. }
  intros i g0 g1 t0. rewrite !nth_error_append, Hlen.
  destruct (Nat.ltb_spec (i + 1) (List.length fitness)) as [Hi|Hi].
  - destruct (Nat.ltb_spec i (List.length fitness)); [|lia]. apply Hstep.
  - destruct (Nat.eqb_spec (i + 1) (List.length fitness)) as [E|E]; [|discriminate].
    destruct (Nat.ltb_spec i (List.length fitness)); [|lia].
    replace i with (pred (List.length fitness)) by lia.
    rewrite Nf. pattern (List.length fitness) at 1. rewrite <- Hlen, Ns.
    intros [= <-] [= <-] [= <-]. reflexivity.
Qed.

Section TrackerFacts.

Variable S : Type.
Variable reduce : Np.reduction.
Variable exec : evaluator S.
Variable port : Pop.Port S.

Implicit Types self : Metaheuristic S.

(** What a call of [__update_historicals] that returns has done. *)
Lemma update_historicals_Ok self self' :
  update_historicals reduce self = Ok self' ->
  exists centroid radius stagnation,
    Np.mean0 reduce (Pop.positions (pop self)) = Ok centroid
    /\ radius_of reduce (num_agents self) (Pop.positions (pop self)) centroid = Ok radius
    /\ instantaneous_stagnation (Pop.iteration (pop self))
         (append (historical_global_fitness self) (Pop.global_best_fitness (pop self)))
         (historical_stagnation self) = Ok stagnation
    /\ pop self' = pop self
    /\ same_config self self'
    /\ historical_global_fitness self' =
         append (historical_global_fitness self) (Pop.global_best_fitness (pop self))
    /\ historical_global_position self' =
         append (historical_global_position self) (Pop.global_best_position (pop self))
    /\ historical_centroid self' = centroid
    /\ historical_radius self' = append (historical_radius self) radius
    /\ historical_stagnation self' = append (historical_stagnation self) stagnation.
Proof.
  unfold update_historicals. intros H.
  apply bind_Ok in H as (c & Hc & H).
  apply bind_Ok in H as (r & Hr & H).
  apply bind_Ok in H as (s & Hs & H).
  injection H as <-. exists c, r, s. simpl. repeat split; assumption.
Qed.

Lemma update_historicals_config self self' :
  update_historicals reduce self = Ok self' -> same_config self self'.
Proof.
  intros H. now apply update_historicals_Ok in H as (c & r & s & _ & _ & _ & _ & C & _).
Qed.

Lemma history_length_frame n self self' :
  same_history self self' -> history_length n self -> history_length n self'.
Proof.
  unfold same_history, history_length.
  intros (-> & -> & _ & -> & ->). trivial.
Qed.

Lemma update_historicals_length n self self' :
  history_length n self -> update_historicals reduce self = Ok self' ->
  history_length (n + 1) self'.
Proof.
  intros (A & B & C & D) H.
  apply update_historicals_Ok in H
    as (c & r & s & _ & _ & _ & _ & _ & E1 & E2 & _ & E3 & E4).
  unfold history_length. rewrite E1, E2, E3, E4, !length_append. lia.
Qed.

Lemma report_Ok self self' : report port self = Ok self' -> self' = self.
Proof.
  unfold report. intros H.
  apply bind_Ok in H as (? & _ & H). apply bind_Ok in H as (? & _ & H).
  destruct (Pop.get_state port (pop self)); congruence.
Qed.

(** An iteration, cut before the record. *)
Lemma iterate_Ok k self self' :
  iterate reduce exec port k self = Ok self' ->
  exists s1,
    for_each (apply_step exec port) (combine (operators self) (selectors self))
      (set_pop self (Pop.set_iteration k (pop self))) = Ok s1
    /\ update_historicals reduce s1 = Ok self'.
Proof.
  unfold iterate. intros H.
  apply bind_Ok in H as (s1 & H1 & H). apply bind_Ok in H as (s2 & H2 & H).
  apply report_Ok in H. subst s2. eauto.
Qed.

Lemma frame_passes self self' :
  same_config self self' ->
  plan_touches_population_only exec (operators self) ->
  plan_touches_population_only exec (operators self').
Proof. intros (E & _). now rewrite E. Qed.

(** An iteration over a plan whose operators touch the population only:
    up to the record, only the population has changed. *)
Lemma iterate_framed k self self' :
  plan_touches_population_only exec (operators self) ->
  iterate reduce exec port k self = Ok self' ->
  exists s1,
    for_each (apply_step exec port) (combine (operators self) (selectors self))
      (set_pop self (Pop.set_iteration k (pop self))) = Ok s1
    /\ step_frame self s1
    /\ update_historicals reduce s1 = Ok self'
    /\ same_config self self'.
Proof.
  intros F H. apply iterate_Ok in H as (s1 & H1 & H2).
  exists s1. split; [exact H1|].
  assert (Fr : step_frame self s1).
  { eapply step_frame_trans; [|eapply steps_frame; [|exact H1]].
    - split; repeat split.
    - apply plan_steps. exact F. }
  split; [exact Fr|]. split; [exact H2|].
  eapply same_config_trans; [exact (proj1 Fr)|].
  now apply update_historicals_config.
Qed.

(** The outer loop carries what each iteration carries; the invariant may
    count the iterations. *)
Lemma iterations_framed (I : nat -> Metaheuristic S -> Prop) (P : Z -> Prop) :
  (forall n k self self',
      P k -> plan_touches_population_only exec (operators self) -> I n self ->
      iterate reduce exec port k self = Ok self' -> I (n + 1)%nat self') ->
  forall l n self self',
    Forall P l -> plan_touches_population_only exec (operators self) -> I n self ->
    for_each (iterate reduce exec port) l self = Ok self' ->
    I (n + List.length l)%nat self' /\ same_config self self'.
Proof.
  intros Step. induction l as [|k l IH]; intros n self self' HP F HI H; simpl in H.
  - injection H as <-. rewrite Nat.add_0_r. split; [exact HI | apply same_config_refl].
  - apply bind_Ok in H as (s1 & H1 & H).
    inversion HP as [|? ? Pk Pl]; subst.
    pose proof (Step n k self s1 Pk F HI H1) as I1.
    destruct (iterate_framed k self s1 F H1) as (s0 & _ & _ & _ & C1).
    destruct (IH (n + 1)%nat s1 self' Pl (frame_passes _ _ C1 F) I1 H) as [I2 C2].
    split.
    + simpl. replace (n + Datatypes.S (List.length l))%nat
        with (n + 1 + List.length l)%nat by lia. exact I2.
    + eapply same_config_trans; eassumption.
Qed.

Lemma Forall_True {A : Type} (l : list A) : Forall (fun _ => True) l.
Proof. apply Forall_forall. trivial. Qed.

Lemma iterate_length n k self self' :
  plan_touches_population_only exec (operators self) ->
  history_length n self -> iterate reduce exec port k self = Ok self' ->
  history_length (n + 1) self'.
Proof.
  intros F L H. apply (iterate_framed _ _ _ F) in H as (s1 & _ & [_ H1] & H2 & _).
  eapply update_historicals_length; [|exact H2].
  eapply history_length_frame; [exact H1|]. exact L.
Qed.

Lemma iterations_length l n self self' :
  plan_touches_population_only exec (operators self) ->
  history_length n self -> for_each (iterate reduce exec port) l self = Ok self' ->
  history_length (n + List.length l) self' /\ same_config self self'.
Proof.
  intros F L H.
  apply (iterations_framed history_length (fun _ => True)) with (self := self);
    try assumption; [|apply Forall_True].
  intros m k s s' _ Fs Ls Hs. eapply iterate_length; eassumption.
Qed.

(** [run], cut after the bootstrap: no text is evaluated before the first
    record. *)
Lemma run_Ok self self' :
  run reduce exec port self = Ok self' ->
  exists s5 s6,
    step_frame self s5
    /\ (Pop.port_keeps_iteration port -> Pop.iteration (pop s5) = 0)
    /\ update_historicals reduce s5 = Ok s6
    /\ for_each (iterate reduce exec port) (range 1 (num_iterations s6 + 1)) s6 = Ok self'
    /\ same_config self s6.
Proof.
  unfold run. intros H.
  apply bind_Ok in H as (s1 & H1 & H). apply bind_Ok in H as (s2 & H2 & H).
  apply bind_Ok in H as (s3 & H3 & H). apply bind_Ok in H as (s4 & H4 & H).
  apply bind_Ok in H as (s5 & H5 & H). apply bind_Ok in H as (s6 & H6 & H).
  exists s5, s6.
  assert (Fr : step_frame self s5).
  { apply call_frame in H1, H2, H3, H4, H5.
    eapply step_frame_trans; [|exact H5]. eapply step_frame_trans; [|exact H4].
    eapply step_frame_trans; [|exact H3]. eapply step_frame_trans; [|exact H2].
    eapply step_frame_trans; [|exact H1]. split; repeat split. }
  split; [exact Fr|]. split; [|split; [exact H6|split; [exact H|]]].
  - intros (Ki & Ke & Ku).
    apply call_iteration in H1; [|exact Ki].
    apply call_iteration in H2; [|exact Ke].
    apply call_iteration in H3; [|apply Ku].
    apply call_iteration in H4; [|apply Ku].
    apply call_iteration in H5; [|apply Ku].
    rewrite H5, H4, H3, H2, H1. reflexivity.
  - eapply same_config_trans; [exact (proj1 Fr)|].
    now apply update_historicals_config.
Qed.

Lemma init_Ok population simple_heuristics agents threshold v self :
  init population simple_heuristics agents threshold v = Ok self ->
  pop self = population
  /\ num_iterations self = threshold
  /\ num_agents self = agents
  /\ process_heuristics simple_heuristics = Ok (operators self, selectors self)
  /\ historical_global_fitness self = []
  /\ historical_global_position self = []
  /\ historical_centroid self = []
  /\ historical_radius self = []
  /\ historical_stagnation self = [].
Proof.
  unfold init. intros H. apply bind_Ok in H as ([ops sels] & Hp & H).
  injection H as <-. simpl. repeat split. exact Hp.
Qed.

(** A complete run over a plan whose operators touch the population only
    appends [num_iterations + 1] entries to each of the four sequences. *)
Lemma run_appends_to_histories n self self' :
  plan_touches_population_only exec (operators self) ->
  0 <= num_iterations self ->
  history_length n self -> run reduce exec port self = Ok self' ->
  history_length (n + Z.to_nat (num_iterations self + 1)) self'.
Proof.
  intros F HT L H. apply run_Ok in H as (s5 & s6 & [C5 F5] & _ & H6 & H & C6).
  pose proof (history_length_frame _ _ _ F5 L) as L5.
  pose proof (update_historicals_length _ _ _ L5 H6) as L6.
  destruct (iterations_length _ _ _ _ (frame_passes _ _ C6 F) L6 H) as [L7 _].
  rewrite range_length in L7.
  assert (E : num_iterations s6 = num_iterations self) by apply C6.
  rewrite E in L7.
  replace (n + Z.to_nat (num_iterations self + 1))%nat
    with (n + 1 + Z.to_nat (num_iterations self + 1 - 1))%nat by lia.
  exact L7.
Qed.

End TrackerFacts.
Lemma stagnation_tracks_nonempty (fitness : list float) (stagnation : list Z) :
  stagnation_tracks fitness stagnation ->
  exists f0 s0, index_neg fitness 1 = Ok f0 /\ index_neg stagnation 1 = Ok s0.
Proof.
  intros (Hlen & H0 & _).
  assert (Hs : stagnation <> []) by (intros ->; discriminate).
  assert (Hf : fitness <> []) by (intros ->; destruct stagnation; simpl in *; congruence).
  destruct (index_neg_1_nonempty fitness Hf) as (f0 & Ef & _).
  destruct (index_neg_1_nonempty stagnation Hs) as (s0 & Es & _).
  eauto.
Qed.

Lemma stagnation_tracks_at (fitness : list float) (stagnation : list Z) (i : nat) :
  stagnation_tracks fitness stagnation ->
  (i + 1 < List.length fitness)%nat ->
  exists f0 f1 s0,
    nth_error fitness i = Some f0
    /\ nth_error fitness (i + 1) = Some f1
    /\ nth_error stagnation i = Some s0
    /\ nth_error stagnation (i + 1) = Some (if PrimFloat.eqb f0 f1 then s0 + 1 else 0).
Proof.
  intros (Hlen & H0 & Hstep) Hi.
  destruct (nth_error fitness i) as [f0|] eqn:E0;
    [|apply nth_error_None in E0; lia].
  destruct (nth_error fitness (i + 1)) as [f1|] eqn:E1;
    [|apply nth_error_None in E1; lia].
  destruct (nth_error stagnation i) as [s0|] eqn:E2;
    [|apply nth_error_None in E2; lia].
  exists f0, f1, s0. repeat split. eapply Hstep; eassumption.
Qed.

Section StagnationFacts.

Variable S : Type.
Variable reduce : Np.reduction.
Variable exec : evaluator S.
Variable port : Pop.Port S.
Variable ops : list string.
Hypothesis keeps : Pop.port_keeps_iteration port.
Hypothesis frame : plan_touches_population_only exec ops.
Hypothesis keepx : plan_keeps_iteration exec ops.

Implicit Types self : Metaheuristic S.

Lemma update_historicals_first self self' :
  historical_global_fitness self = [] ->
  historical_stagnation self = [] ->
  Pop.iteration (pop self) <= 0 ->
  update_historicals reduce self = Ok self' -> tracked self'.
Proof.
  intros Ef Es Hi H.
  apply update_historicals_Ok in H
    as (c & r & s & _ & _ & Hs & _ & _ & E1 & _ & _ & _ & E4).
  rewrite stagnation_not_positive in Hs by assumption. injection Hs as <-.
  unfold tracked. rewrite E1, E4, Ef, Es. apply stagnation_tracks_first.
Qed.

Lemma update_historicals_next self self' :
  tracked self -> 0 < Pop.iteration (pop self) ->
  update_historicals reduce self = Ok self' -> tracked self'.
Proof.
  intros T Hi H.
  apply update_historicals_Ok in H
    as (c & r & s & _ & _ & Hs & _ & _ & E1 & _ & _ & _ & E4).
  destruct (stagnation_tracks_nonempty _ _ T) as (f0 & s0 & Hf0 & Hs0).
  rewrite (stagnation_next _ _ _ f0 _ s0 Hi Hf0 Hs0) in Hs. injection Hs as <-.
  unfold tracked. rewrite E1, E4. now apply stagnation_tracks_next.
Qed.

Lemma steps_tracked k self s1 :
  operators self = ops ->
  tracked self ->
  for_each (apply_step exec port) (combine (operators self) (selectors self))
    (set_pop self (Pop.set_iteration k (pop self))) = Ok s1 ->
  tracked s1 /\ Pop.iteration (pop s1) = k.
Proof.
  intros Eo T H. rewrite Eo in H. split.
  - apply steps_frame in H as [_ (E1 & _ & _ & _ & E5)]; [|now apply plan_steps].
    unfold tracked. rewrite E1, E5. exact T.
  - apply steps_iteration in H; [exact H | exact keeps | now apply plan_steps_counter].
Qed.

Lemma iterate_tracked k self self' :
  operators self = ops ->
  0 < k -> tracked self -> iterate reduce exec port k self = Ok self' ->
  tracked self' /\ operators self' = ops.
Proof.
  intros Eo Hk T H. split.
  - apply iterate_Ok in H as (s1 & H1 & H2).
    apply steps_tracked in H1 as [T1 I1]; [|exact Eo|exact T].
    apply (update_historicals_next s1); [exact T1 | lia | exact H2].
  - apply iterate_framed in H as (s1 & _ & _ & _ & (Co & _)); [|now rewrite Eo].
    now rewrite Co.
Qed.

Lemma range_positive (b : Z) : Forall (fun k => 0 < k) (range 1 b).
Proof. apply Forall_forall. intros k Hk. apply range_In in Hk. lia. Qed.

Lemma iterations_tracked l : forall self self',
  operators self = ops ->
  Forall (fun k => 0 < k) l -> tracked self ->
  for_each (iterate reduce exec port) l self = Ok self' -> tracked self'.
Proof.
  induction l as [|k l IH]; intros self self' Eo Hl T H; simpl in H.
  - now injection H as <-.
  - apply bind_Ok in H as (s1 & H1 & H). apply Forall_cons_iff in Hl as [Hk Hl'].
    destruct (iterate_tracked k self s1 Eo Hk T H1) as [T1 E1].
    eapply IH; [exact E1 | exact Hl' | exact T1 | exact H].
Qed.

(** The stagnation history of a fresh engine counts along its fitness
    history after a run. *)
Lemma run_tracked self self' :
  operators self = ops ->
  historical_global_fitness self = [] ->
  historical_stagnation self = [] ->
  run reduce exec port self = Ok self' -> tracked self'.
Proof.
  intros Eo Ef Es H. apply run_Ok in H as (s5 & s6 & [_ F5] & I5 & H6 & H & C6).
  destruct F5 as (E1 & _ & _ & _ & E5).
  eapply iterations_tracked; [ | apply range_positive | | exact H].
  - destruct C6 as (Co & _). now rewrite Co.
  - apply (update_historicals_first s5); [congruence | congruence | | exact H6].
    rewrite (I5 keeps). lia.
Qed.

(** *** No read of the history is out of range *)

Lemma update_historicals_in_range self :
  Pop.iteration (pop self) <= 0 \/ tracked self ->
  update_historicals reduce self <> Raise IndexError.
Proof.
  intros Hpre H. unfold update_historicals in H.
  apply bind_Raise in H as [H|(c & _ & H)]; [apply mean0_Raise in H; discriminate|].
  apply bind_Raise in H as [H|(r & _ & H)]; [apply radius_of_Raise in H; discriminate|].
  apply bind_Raise in H as [H|(s & _ & H)]; [|discriminate].
  destruct (Z_lt_le_dec 0 (Pop.iteration (pop self))) as [Hi|Hi].
  - destruct Hpre as [Hle|T]; [lia|].
    destruct (stagnation_tracks_nonempty _ _ T) as (f0 & s0 & Hf0 & Hs0).
    rewrite (stagnation_next _ _ _ f0 _ s0 Hi Hf0 Hs0) in H. discriminate.
  - rewrite stagnation_not_positive in H by assumption. discriminate.
Qed.

Lemma report_after_update self self' :
  update_historicals reduce self = Ok self' -> report port self' <> Raise IndexError.
Proof.
  intros H. apply update_historicals_Ok in H
    as (c & r & s & _ & _ & _ & _ & _ & _ & _ & _ & E3 & E4).
  unfold report. rewrite E3, E4, !index_neg_last. cbn [bind].
  destruct (Pop.get_state port (pop self')); discriminate.
Qed.

Lemma iterate_in_range k self :
  operators self = ops ->
  0 < k -> tracked self -> iterate reduce exec port k self <> Raise IndexError.
Proof.
  intros Eo Hk T H. unfold iterate in H. simpl in H.
  apply bind_Raise in H as [H|(s1 & H1 & H)];
    [apply steps_Raise in H as (name & H); discriminate|].
  apply steps_tracked in H1 as [T1 I1]; [|exact Eo|exact T].
  apply bind_Raise in H as [H|(s2 & H2 & H)].
  - revert H. apply update_historicals_in_range. now right.
  - revert H. eapply report_after_update. exact H2.
Qed.

Lemma iterations_in_range l : forall self,
  operators self = ops ->
  Forall (fun k => 0 < k) l -> tracked self ->
  for_each (iterate reduce exec port) l self <> Raise IndexError.
Proof.
  induction l as [|k l IH]; intros self Eo Hl T H; simpl in H; [discriminate|].
  apply Forall_cons_iff in Hl as [Hk Hl'].
  apply bind_Raise in H as [H|(s1 & H1 & H)].
  - revert H. now apply iterate_in_range.
  - destruct (iterate_tracked k self s1 Eo Hk T H1) as [T1 E1].
    revert H. now apply IH.
Qed.

Lemma run_in_range self :
  operators self = ops ->
  historical_global_fitness self = [] ->
  historical_stagnation self = [] ->
  run reduce exec port self <> Raise IndexError.
Proof.
  intros Eo Ef Es H. unfold run in H.
  repeat match type of H with
  | bind (call _ _) _ = Raise _ =>
      let s := fresh "s" in let Hs := fresh "Hs" in
      apply bind_Raise in H as [H|(s & Hs & H)];
        [apply call_Raise in H as (name & H); discriminate|]
  end.
  assert (Fr : step_frame self s3 /\ Pop.iteration (pop s3) = 0).
  { destruct keeps as (Ki & Ke & Ku). split.
    - apply call_frame in Hs, Hs0, Hs1, Hs2, Hs3.
      eapply step_frame_trans; [|exact Hs3]. eapply step_frame_trans; [|exact Hs2].
      eapply step_frame_trans; [|exact Hs1]. eapply step_frame_trans; [|exact Hs0].
      eapply step_frame_trans; [|exact Hs]. split; repeat split.
    - apply call_iteration in Hs; [|exact Ki].
      apply call_iteration in Hs0; [|exact Ke].
      apply call_iteration in Hs1; [|apply Ku].
      apply call_iteration in Hs2; [|apply Ku].
      apply call_iteration in Hs3; [|apply Ku].
      rewrite Hs3, Hs2, Hs1, Hs0, Hs. reflexivity. }
  destruct Fr as [[C3 (E1 & _ & _ & _ & E5)] I3].
  apply bind_Raise in H as [H|(s6 & H6 & H)].
  - revert H. apply update_historicals_in_range. left. lia.
  - revert H. apply iterations_in_range; [|apply range_positive|].
    + apply update_historicals_config in H6 as (Co6 & _).
      destruct C3 as (Co3 & _). cbn [operators set_pop] in Co3. congruence.
    + apply (update_historicals_first s3); [congruence | congruence | lia | exact H6].
Qed.

End StagnationFacts.

(** ** The synthetic population and its interpreter respect the contracts *)

Lemma synthetic_greedy_iteration (p : Pop.Population Synthetic.State) :
  Pop.iteration (Synthetic.greedy p) = Pop.iteration p.
Proof.
  unfold Synthetic.greedy. generalize (Pop.positions p) as xs.
  intros xs. revert p. induction xs as [|x xs IH]; intros p; simpl; [reflexivity|].
  rewrite IH. now destruct (PrimFloat.leb _ _).
Qed.

Lemma synthetic_keeps_iteration : Pop.port_keeps_iteration Synthetic.port.
Proof.
  repeat split.
  - intros p p' [= <-]. reflexivity.
  - intros p p' [= <-]. reflexivity.
  - intros level selector p p'. simpl. intros [= <-].
    destruct (String.eqb level "global");
      [now rewrite synthetic_greedy_iteration | reflexivity].
Qed.

(** A statement of the interpreter halves the positions or leaves the
    population as it is. *)
Lemma synthetic_statement_cases (text : string) (self self' : Metaheuristic Synthetic.State) :
  Synthetic.statement text self = inr self' ->
  self' = set_pop self (Synthetic.halve (pop self))
  \/ pop self' = pop self.
Proof.
  unfold Synthetic.statement.
  repeat match goal with
  | |- context [if ?b then _ else _] => destruct b
  end; try (intros [= <-]; auto); try discriminate.
  destruct (rev _); [discriminate|]. intros [= <-]. auto.
Qed.

Lemma synthetic_sequence_invariant (I : Pop.Population Synthetic.State -> Prop) :
  (forall p, I p -> I (Synthetic.halve p)) ->
  forall texts self self',
    Synthetic.sequence texts self = inr self' -> I (pop self) -> I (pop self').
Proof.
  intros Ih. induction texts as [|text texts IH]; intros self self' H Hi; simpl in H.
  - now injection H as <-.
  - destruct (Synthetic.statement text self) as [name|s1] eqn:E; [discriminate|].
    apply (IH _ _ H).
    apply synthetic_statement_cases in E as [-> | ->]; [simpl; now apply Ih | exact Hi].
Qed.

(** No text assigns the counter of the synthetic population. *)
Lemma synthetic_exec_keeps_iteration : exec_keeps_iteration Synthetic.exec.
Proof.
  intros source self self' H. unfold Synthetic.exec in H.
  apply (synthetic_sequence_invariant
           (fun p => Pop.iteration p = Pop.iteration (pop self))) in H.
  - exact H.
  - intros p Hp. exact Hp.
  - reflexivity.
Qed.

Lemma synthetic_plan_keeps_iteration (ops : list string) :
  plan_keeps_iteration Synthetic.exec ops.
Proof. intros operator _. apply synthetic_exec_keeps_iteration. Qed.

(** The two operators of the synthetic population, called with or without
    arguments, touch the population only. *)
Lemma synthetic_halve_touches_population_only :
  touches_population_only Synthetic.exec "self.pop.halve()".
Proof. intros self self' H. cbn in H. injection H as <-. split; repeat split. Qed.

Lemma synthetic_stay_touches_population_only :
  touches_population_only Synthetic.exec "self.pop.stay()".
Proof. intros self self' H. cbn in H. injection H as <-. split; repeat split. Qed.

Lemma synthetic_stay_k_touches_population_only :
  touches_population_only Synthetic.exec "self.pop.stay(k = 1)".
Proof. intros self self' H. cbn in H. injection H as <-. split; repeat split. Qed.

Lemma demo_plan_touches_population_only :
  plan_touches_population_only Synthetic.exec ["halve()"; "stay(k = 1)"].
Proof.
  intros operator [<-|[<-|[]]];
    [apply synthetic_halve_touches_population_only
    | apply synthetic_stay_k_touches_population_only].
Qed.

Lemma idle_plan_touches_population_only :
  plan_touches_population_only Synthetic.exec ["stay()"].
Proof.
  intros operator [<-|[]]. apply synthetic_stay_touches_population_only.
Qed.

Lemma halve_plan_touches_population_only :
  plan_touches_population_only Synthetic.exec ["halve()"].
Proof.
  intros operator [<-|[]]. apply synthetic_halve_touches_population_only.
Qed.

(** ** C2: the length of the histories *)

(** Three complete runs whose histories do not hold T + 1 entries each: an
    operator whose text empties the stagnation history between two moves
    (T = 3: four fitness entries, one stagnation counter); a negative T
    (T = -1: the bootstrap is recorded all the same, one entry where
    T + 1 = 0); a second run of the same engine (T = 3: eight entries). *)
Lemma history_lengths_other_than_T_plus_1 :
  (exists self self',
      init demo_population clearing_heuristics 2 3 false = Ok self
      /\ operators self
         = ["halve(k = '0'); self.historical_stagnation.clear(); self.pop.halve(k = '0')"]
      /\ run Np.in_order Synthetic.exec Synthetic.port self = Ok self'
      /\ historical_global_fitness self' = [4%float; 1%float; 0.25%float; 0.0625%float]
      /\ historical_stagnation self' = [0]
      /\ Z.of_nat (List.length (historical_stagnation self')) <> 3 + 1)
  /\ (exists self self',
         init demo_population demo_heuristics 2 (-1) false = Ok self
         /\ run Np.in_order Synthetic.exec Synthetic.port self = Ok self'
         /\ historical_global_fitness self' = [4%float]
         /\ Z.of_nat (List.length (historical_global_fitness self')) <> -1 + 1)
  /\ (exists self first second,
         init demo_population demo_heuristics 2 3 false = Ok self
         /\ run Np.in_order Synthetic.exec Synthetic.port self = Ok first
         /\ run Np.in_order Synthetic.exec Synthetic.port first = Ok second
         /\ Z.of_nat (List.length (historical_global_fitness first)) = 3 + 1
         /\ Z.of_nat (List.length (historical_global_fitness second)) = 8
         /\ Z.of_nat (List.length (historical_global_fitness second)) <> 3 + 1).
Proof.
  split; [|split].
  - eexists. eexists. split; [reflexivity|]. split; [reflexivity|].
    split; [vm_compute; reflexivity|]. repeat split. discriminate.
  - eexists. eexists. split; [reflexivity|].
    split; [vm_compute; reflexivity|]. split; [reflexivity | discriminate].
  - eexists. eexists. eexists. split; [reflexivity|].
    split; [vm_compute; reflexivity|]. split; [vm_compute; reflexivity|].
    split; [reflexivity|]. split; [reflexivity | discriminate].
Qed.

(** C2 (amended). After a complete run of a freshly built engine with
    [num_iterations = T], T >= 0, whose operators touch the population
    only, the sequences [historical_global_fitness],
    [historical_global_position], [historical_radius] and
    [historical_stagnation] each hold exactly T + 1 entries. *)
Theorem run_history_lengths :
  forall (S : Type) (reduce : Np.reduction) (exec : evaluator S) (port : Pop.Port S)
         (population : Pop.Population S)
         (simple_heuristics : list descriptor) (agents T : Z) (v : bool)
         (self self' : Metaheuristic S),
    0 <= T ->
    init population simple_heuristics agents T v = Ok self ->
    plan_touches_population_only exec (operators self) ->
    run reduce exec port self = Ok self' ->
    Z.of_nat (List.length (historical_global_fitness self')) = T + 1
    /\ Z.of_nat (List.length (historical_global_position self')) = T + 1
    /\ Z.of_nat (List.length (historical_radius self')) = T + 1
    /\ Z.of_nat (List.length (historical_stagnation self')) = T + 1.
Proof.
  intros S reduce exec port population hs agents T v self self' HT Hinit F Hrun.
  apply init_Ok in Hinit as (_ & ET & _ & _ & E1 & E2 & _ & E3 & E4).
  assert (L0 : history_length 0 self).
  { unfold history_length. now rewrite E1, E2, E3, E4. }
  assert (HT' : 0 <= num_iterations self) by lia.
  destruct (run_appends_to_histories S reduce exec port 0 self self' F HT' L0 Hrun)
    as (A & B & C & D).
  rewrite A, B, C, D, ET. simpl. lia.
Qed.

Lemma run_history_lengths_witness :
  exists self self',
    init demo_population demo_heuristics 2 3 false = Ok self
    /\ run Np.in_order Synthetic.exec Synthetic.port self = Ok self'
    /\ Z.of_nat (List.length (historical_global_fitness self')) = 3 + 1
    /\ Z.of_nat (List.length (historical_global_position self')) = 3 + 1
    /\ Z.of_nat (List.length (historical_radius self')) = 3 + 1
    /\ Z.of_nat (List.length (historical_stagnation self')) = 3 + 1.
Proof.
  eexists. eexists. split; [reflexivity|]. split; [vm_compute; reflexivity|].
  lazymatch goal with
  | |- Z.of_nat (List.length (historical_global_fitness ?s')) = _ /\ _ =>
      eapply (run_history_lengths Synthetic.State Np.in_order Synthetic.exec
                Synthetic.port demo_population demo_heuristics 2 3 false _ s');
        [lia | reflexivity | exact demo_plan_touches_population_only
        | vm_compute; reflexivity]
  end.
Defined.

(** ** C3: the stagnation counter *)

(** Two complete runs whose stagnation history does not count along the
    fitness history: a second run of the same engine restarts the count at
    its bootstrap ([global_fitness[3] == global_fitness[4]], yet
    [stagnation[4]] is 0 where [stagnation[3] + 1] is 1); an operator whose
    text overwrites the last counter ([stagnation[0]] is 7). *)
Lemma stagnation_not_counting :
  (exists self first second,
      init demo_population demo_heuristics 2 1 false = Ok self
      /\ run Np.in_order Synthetic.exec Synthetic.port self = Ok first
      /\ run Np.in_order Synthetic.exec Synthetic.port first = Ok second
      /\ historical_global_fitness second = [4%float; 2%float; 2%float; 1%float]
      /\ historical_stagnation second = [0; 0; 0; 0]
      /\ nth_error (historical_stagnation second) 2
         <> Some (if PrimFloat.eqb 2 2 then 0 + 1 else 0))
  /\ (exists self self',
         init demo_population overwriting_heuristics 2 1 false = Ok self
         /\ operators self
            = ["stay(); self.historical_stagnation[-1] = 7; self.pop.stay()"]
         /\ run Np.in_order Synthetic.exec Synthetic.port self = Ok self'
         /\ historical_global_fitness self' = [4%float; 4%float]
         /\ historical_stagnation self' = [7; 8]
         /\ nth_error (historical_stagnation self') 0 <> Some 0).
Proof.
  split.
  - eexists. eexists. eexists. split; [reflexivity|].
    split; [vm_compute; reflexivity|]. split; [vm_compute; reflexivity|].
    split; [reflexivity|]. split; [reflexivity | discriminate].
  - eexists. eexists. split; [reflexivity|]. split; [reflexivity|].
    split; [vm_compute; reflexivity|].
    split; [reflexivity|]. split; [reflexivity | discriminate].
Qed.

(** C3 (amended). After a complete run of a freshly built engine whose
    operators touch the population only (and neither they nor the methods of
    the population assign the iteration counter), [stagnation[0] == 0] and,
    for every recorded i >= 1, [stagnation[i]] is [stagnation[i-1] + 1]
    when [global_fitness[i-1] == global_fitness[i]] (float equality) and 0
    otherwise. *)
Theorem stagnation_counts_unchanged_fitness :
  forall (S : Type) (reduce : Np.reduction) (exec : evaluator S) (port : Pop.Port S)
         (population : Pop.Population S)
         (simple_heuristics : list descriptor) (agents T : Z) (v : bool)
         (self self' : Metaheuristic S),
    Pop.port_keeps_iteration port ->
    init population simple_heuristics agents T v = Ok self ->
    plan_touches_population_only exec (operators self) ->
    plan_keeps_iteration exec (operators self) ->
    run reduce exec port self = Ok self' ->
    nth_error (historical_stagnation self') 0 = Some 0
    /\ forall i : nat,
         (1 <= i < List.length (historical_stagnation self'))%nat ->
         exists f0 f1 s0,
           nth_error (historical_global_fitness self') (i - 1) = Some f0
           /\ nth_error (historical_global_fitness self') i = Some f1
           /\ nth_error (historical_stagnation self') (i - 1) = Some s0
           /\ nth_error (historical_stagnation self') i
              = Some (if PrimFloat.eqb f0 f1 then s0 + 1 else 0).
Proof.
  intros S reduce exec port population hs agents T v self self' K Hinit F Kx Hrun.
  apply init_Ok in Hinit as (_ & _ & _ & _ & E1 & _ & _ & _ & E4).
  pose proof (run_tracked S reduce exec port (operators self) K F Kx self self'
                eq_refl E1 E4 Hrun) as Tr.
  split; [apply Tr|].
  intros i Hi. unfold tracked in Tr.
  destruct (stagnation_tracks_at _ _ (i - 1) Tr) as (f0 & f1 & s0 & A & B & C & D).
  { destruct Tr as (Hlen & _). lia. }
  replace (i - 1 + 1)%nat with i in B, D by lia.
  exists f0, f1, s0. auto.
Qed.

Lemma stagnation_counts_unchanged_fitness_witness :
  exists self self',
    init demo_population idle_heuristics 2 3 false = Ok self
    /\ run Np.in_order Synthetic.exec Synthetic.port self = Ok self'
    /\ historical_stagnation self' = [0; 1; 2; 3]
    /\ nth_error (historical_stagnation self') 0 = Some 0
    /\ forall i : nat,
         (1 <= i < List.length (historical_stagnation self'))%nat ->
         exists f0 f1 s0,
           nth_error (historical_global_fitness self') (i - 1) = Some f0
           /\ nth_error (historical_global_fitness self') i = Some f1
           /\ nth_error (historical_stagnation self') (i - 1) = Some s0
           /\ nth_error (historical_stagnation self') i
              = Some (if PrimFloat.eqb f0 f1 then s0 + 1 else 0).
Proof.
  eexists. eexists. split; [reflexivity|]. split; [vm_compute; reflexivity|].
  split; [reflexivity|].
  lazymatch goal with
  | |- nth_error (historical_stagnation ?s') 0 = _ /\ _ =>
      eapply (stagnation_counts_unchanged_fitness Synthetic.State Np.in_order
                Synthetic.exec Synthetic.port demo_population idle_heuristics 2 3 false
                _ s');
        [exact synthetic_keeps_iteration | reflexivity
        | exact idle_plan_touches_population_only
        | apply synthetic_plan_keeps_iteration | vm_compute; reflexivity]
  end.
Defined.

(** A global best that improves in every iteration keeps the counter at 0. *)
Example stagnation_of_improving_run :
  exists self self',
    init demo_population demo_heuristics 2 3 false = Ok self
    /\ run Np.in_order Synthetic.exec Synthetic.port self = Ok self'
    /\ historical_global_fitness self' = [4%float; 2%float; 1%float; 0.5%float]
    /\ historical_stagnation self' = [0; 0; 0; 0].
Proof.
  eexists. eexists. split; [reflexivity|]. split; [vm_compute; reflexivity|].
  split; reflexivity.
Qed.

(** ** C10: the reads of the history stay in range *)

(** An operator whose text empties the fitness history: the record of the
    first iteration appends one entry and reads
    [historical_global_fitness[-2]]: [IndexError]. *)
Lemma emptied_history_read_out_of_range :
  exists self,
    init demo_population forgetful_heuristics 2 1 false = Ok self
    /\ operators self
       = ["stay(); self.historical_global_fitness.clear(); self.pop.stay()"]
    /\ run Np.in_order Synthetic.exec Synthetic.port self = Raise IndexError.
Proof.
  eexists. split; [reflexivity|]. split; [reflexivity | vm_compute; reflexivity].
Qed.

(** C10 (amended). In a run of a freshly built engine whose operators touch
    the population only (and neither they nor the methods of the population
    assign the iteration counter) no read of the history is out of range:
    [run] never raises [IndexError].  The guard [iteration > 0] keeps
    [__update_historicals] from reading [historical_global_fitness[-2]] while
    the counter is 0, whatever the history holds; and once an entry has been
    recorded, the entry appended by the current call makes index -2 the
    previous last entry. *)
Theorem history_reads_in_range :
  forall (S : Type) (reduce : Np.reduction) (exec : evaluator S) (port : Pop.Port S)
         (population : Pop.Population S)
         (simple_heuristics : list descriptor) (agents T : Z) (v : bool)
         (self : Metaheuristic S),
    Pop.port_keeps_iteration port ->
    init population simple_heuristics agents T v = Ok self ->
    plan_touches_population_only exec (operators self) ->
    plan_keeps_iteration exec (operators self) ->
    run reduce exec port self <> Raise IndexError
    /\ (forall s : Metaheuristic S,
          Pop.iteration (pop s) <= 0 -> update_historicals reduce s <> Raise IndexError)
    /\ (forall (fitness : list float) (f0 f : float),
          index_neg fitness 1 = Ok f0 -> index_neg (append fitness f) 2 = Ok f0).
Proof.
  intros S reduce exec port population hs agents T v self K Hinit F Kx.
  apply init_Ok in Hinit as (_ & _ & _ & _ & E1 & _ & _ & _ & E4).
  split; [now apply (run_in_range S reduce exec port (operators self) K F Kx)|]. split.
  - intros s Hs. apply update_historicals_in_range. now left.
  - intros fitness f0 f Hf. now rewrite index_neg_before_last.
Qed.

Lemma history_reads_in_range_witness :
  exists self,
    init demo_population demo_heuristics 2 3 false = Ok self
    /\ run Np.in_order Synthetic.exec Synthetic.port self <> Raise IndexError
    /\ (forall s : Metaheuristic Synthetic.State,
          Pop.iteration (pop s) <= 0 ->
          update_historicals Np.in_order s <> Raise IndexError)
    /\ (forall (fitness : list float) (f0 f : float),
          index_neg fitness 1 = Ok f0 -> index_neg (append fitness f) 2 = Ok f0).
Proof.
  eexists. split; [reflexivity|].
  eapply (history_reads_in_range Synthetic.State Np.in_order Synthetic.exec
            Synthetic.port demo_population demo_heuristics 2 3 false);
    [exact synthetic_keeps_iteration | reflexivity
    | exact demo_plan_touches_population_only | apply synthetic_plan_keeps_iteration].
Defined.

(** ** C1, C7: the order of a run *)

Lemma bind_Ok_r {A : Type} (r : result A) : bind r (fun a => Ok a) = r.
Proof. now destruct r. Qed.

Lemma bind_assoc {A B C : Type} (r : result A) (f : A -> result B) (g : B -> result C) :
  bind (bind r f) g = bind r (fun a => bind (f a) g).
Proof. now destruct r. Qed.

Lemma bind_ext {A B : Type} (r : result A) (f g : A -> result B) :
  (forall a, r = Ok a -> f a = g a) -> bind r f = bind r g.
Proof. destruct r; simpl; auto. Qed.

Lemma existsb_eqb_In (x : string) (l : list string) :
  existsb (String.eqb x) l = if in_dec string_dec x l then true else false.
Proof.
  destruct (in_dec string_dec x l) as [H|H].
  - apply existsb_exists. exists x. split; [exact H | apply String.eqb_refl].
  - destruct (existsb (String.eqb x) l) eqn:E; [|reflexivity].
    apply existsb_exists in E as (y & Hy & E). apply String.eqb_eq in E. now subst.
Qed.

Section ScheduleFacts.

Variable S : Type.
Variable reduce : Np.reduction.
Variable exec : evaluator S.
Variable port : Pop.Port S.

Implicit Types self : Metaheuristic S.

Lemma update_population_eq selector self :
  update_population port selector self =
  call (Pop.update_positions port "population"
          (if recognisedb port selector then selector else "all")) self.
Proof.
  unfold update_population, recognisedb, Pop.update_positions_default.
  rewrite existsb_eqb_In. now destruct (in_dec _ _ _).
Qed.

Lemma apply_step_schedule step self :
  apply_step exec port step self
  = perform_all reduce exec port (step_schedule port step) self.
Proof.
  destruct step as [operator selector].
  unfold apply_step, perform_all, step_schedule. simpl.
  apply bind_ext; intros s1 _. apply bind_ext; intros s2 _.
  rewrite update_population_eq. apply bind_ext; intros s3 _.
  now rewrite bind_Ok_r.
Qed.

Lemma steps_schedule plan self :
  for_each (apply_step exec port) plan self =
  perform_all reduce exec port (flat_map (step_schedule port) plan) self.
Proof.
  revert self; induction plan as [|step plan IH]; intros self; [reflexivity|].
  cbn [for_each flat_map]. unfold perform_all. rewrite for_each_app.
  fold (perform_all reduce exec port (step_schedule port step) self).
  rewrite <- apply_step_schedule. apply bind_ext; intros s1 _. apply IH.
Qed.

(** An iteration is the schedule of the plan that the engine holds when the
    iteration starts. *)
Lemma iterate_schedule k self :
  iterate reduce exec port k self =
  perform_all reduce exec port
    (iteration_schedule port (combine (operators self) (selectors self)) k) self.
Proof.
  unfold iterate, iteration_schedule, perform_all. cbn [for_each perform bind].
  rewrite for_each_app. cbn [operators selectors set_pop].
  rewrite steps_schedule. unfold perform_all.
  apply bind_ext; intros s1 _. cbn [for_each perform].
  apply bind_ext; intros s2 _. now rewrite bind_Ok_r.
Qed.

Lemma iterations_schedule l : forall self,
  plan_touches_population_only exec (operators self) ->
  for_each (iterate reduce exec port) l self =
  perform_all reduce exec port
    (flat_map (iteration_schedule port (combine (operators self) (selectors self))) l)
    self.
Proof.
  induction l as [|k l IH]; intros self F; [reflexivity|].
  cbn [for_each flat_map]. unfold perform_all. rewrite for_each_app.
  fold (perform_all reduce exec port
          (iteration_schedule port (combine (operators self) (selectors self)) k) self).
  rewrite <- iterate_schedule. apply bind_ext; intros s1 H1.
  destruct (iterate_framed S reduce exec port k self s1 F H1) as (s0 & _ & _ & _ & C1).
  rewrite IH by (eapply frame_passes; eassumption).
  destruct C1 as (E1 & E2 & _). now rewrite E1, E2.
Qed.

(** A run over a plan whose operators touch the population only is the
    schedule of that plan. *)
Lemma run_as_schedule self :
  plan_touches_population_only exec (operators self) ->
  run reduce exec port self =
  perform_all reduce exec port
    (run_schedule port (combine (operators self) (selectors self)) (num_iterations self))
    self.
Proof.
  intros F.
  unfold run, run_schedule, perform_all. rewrite for_each_app.
  unfold bootstrap_schedule. cbn [for_each perform bind].
  unfold Pop.update_positions_default. rewrite !bind_assoc.
  apply bind_ext; intros s1 H1. rewrite !bind_assoc.
  apply bind_ext; intros s2 H2. rewrite !bind_assoc.
  apply bind_ext; intros s3 H3. rewrite !bind_assoc.
  apply bind_ext; intros s4 H4. rewrite !bind_assoc.
  apply bind_ext; intros s5 H5. rewrite !bind_assoc.
  apply bind_ext; intros s6 H6. cbn [bind].
  apply call_frame in H1 as [C1 _], H2 as [C2 _], H3 as [C3 _], H4 as [C4 _],
    H5 as [C5 _].
  apply update_historicals_config in H6 as C6.
  assert (C : same_config (set_pop self (Pop.set_iteration 0 (pop self))) s6).
  { eapply same_config_trans; [|exact C6]. eapply same_config_trans; [|exact C5].
    eapply same_config_trans; [|exact C4]. eapply same_config_trans; [|exact C3].
    eapply same_config_trans; [|exact C2]. exact C1. }
  rewrite iterations_schedule.
  - unfold perform_all. destruct C as (E1 & E2 & E3 & _).
    cbn [operators selectors num_iterations set_pop] in *.
    now rewrite E1, E2, E3.
  - destruct C as (E1 & _). cbn [operators set_pop] in E1. now rewrite E1.
Qed.

End ScheduleFacts.

(** An operator whose text binds [self.operators] to another plan: the
    second iteration evaluates the text of the new plan, not the step that
    was compiled, and the run is not the schedule of the compiled plan. *)
Lemma rebound_plan_leaves_the_schedule :
  exists self self',
    init demo_population rebinding_heuristics 2 2 false = Ok self
    /\ operators self = ["halve(); self.operators = ['stay()']; self.pop.stay()"]
    /\ run Np.in_order Synthetic.exec Synthetic.port self = Ok self'
    /\ evaluated_texts (Pop.internals (pop self'))
       = ["self.pop.halve(); self.operators = ['stay()']; self.pop.stay()";
          "self.pop.stay()"]
    /\ run Np.in_order Synthetic.exec Synthetic.port self
       <> perform_all Np.in_order Synthetic.exec Synthetic.port
            (run_schedule Synthetic.port (combine (operators self) (selectors self))
               (num_iterations self))
            self.
Proof.
  eexists. eexists. split; [reflexivity|]. split; [reflexivity|].
  split; [vm_compute; reflexivity|]. split; [reflexivity|].
  intros H.
  apply (f_equal (fun r => match r with
                           | Ok s => evaluated_texts (Pop.internals (pop s))
                           | Raise _ => []
                           end)) in H.
  vm_compute in H. discriminate H.
Qed.

(** C1 (amended). A run over a plan whose operators touch the population
    only is the bootstrap followed, for k = 1 .. num_iterations in order,
    by: setting the iteration counter to k; for every step of the plan in
    declared order, the operator, then the fitness evaluation, then the
    population-level update, then the global-level update with the selector
    [greedy] (whatever the step's own selector is); then the record and the
    report of the iteration.  The first statement that raises ends the
    run. *)
Theorem run_follows_schedule :
  forall (S : Type) (reduce : Np.reduction) (exec : evaluator S) (port : Pop.Port S)
         (self : Metaheuristic S),
    plan_touches_population_only exec (operators self) ->
    run reduce exec port self =
    perform_all reduce exec port
      (bootstrap_schedule
       ++ flat_map
            (fun k =>
               SetIteration k
               :: flat_map
                    (fun step =>
                       [Exec ("self.pop." ++ fst step);
                        EvaluateFitness;
                        UpdatePositions "population"
                          (if recognisedb port (snd step) then snd step else "all");
                        UpdatePositions "global" "greedy"])
                    (combine (operators self) (selectors self))
               ++ [UpdateHistoricals; Report])
            (range 1 (num_iterations self + 1)))%list
      self.
Proof.
  intros S reduce exec port self F. now apply run_as_schedule.
Qed.

Lemma run_follows_schedule_witness :
  run Np.in_order Synthetic.exec Synthetic.port demo_recorded_once =
  perform_all Np.in_order Synthetic.exec Synthetic.port
    (bootstrap_schedule
     ++ flat_map
          (fun k =>
             SetIteration k
             :: flat_map
                  (fun step =>
                     [Exec ("self.pop." ++ fst step);
                      EvaluateFitness;
                      UpdatePositions "population"
                        (if recognisedb Synthetic.port (snd step)
                         then snd step else "all");
                      UpdatePositions "global" "greedy"])
                  (combine (operators demo_recorded_once)
                     (selectors demo_recorded_once))
             ++ [UpdateHistoricals; Report])
          (range 1 (num_iterations demo_recorded_once + 1)))%list
    demo_recorded_once.
Proof.
  apply (run_follows_schedule Synthetic.State Np.in_order Synthetic.exec Synthetic.port
           demo_recorded_once).
  exact halve_plan_touches_population_only.
Defined.

(** The calls the synthetic population has logged by the end of a run. *)
Example log_of_a_run :
  exists self self',
    init demo_population demo_heuristics 2 1 false = Ok self
    /\ run Np.in_order Synthetic.exec Synthetic.port self = Ok self'
    /\ Pop.internals (pop self') =
       [InitialiseUniformly; EvaluateFitness;
        UpdatePositions "population" "all"; UpdatePositions "particular" "all";
        UpdatePositions "global" "greedy";
        Exec "self.pop.halve()"; EvaluateFitness;
        UpdatePositions "population" "greedy"; UpdatePositions "global" "greedy";
        Exec "self.pop.stay(k = 1)"; EvaluateFitness;
        UpdatePositions "population" "all"; UpdatePositions "global" "greedy"].
Proof.
  eexists. eexists. split; [reflexivity|]. split; [vm_compute; reflexivity | reflexivity].
Qed.

(** C7. In every step the population-level update is made: with the step's
    selector when [pop.__selection__] holds it, with the default ([all])
    otherwise. *)
Theorem step_updates_population :
  forall (S : Type) (reduce : Np.reduction) (exec : evaluator S) (port : Pop.Port S)
         (operator selector : string) (self : Metaheuristic S),
    (In selector (Pop.selection port) ->
     apply_step exec port (operator, selector) self =
     perform_all reduce exec port
       [Exec ("self.pop." ++ operator); EvaluateFitness;
        UpdatePositions "population" selector; UpdatePositions "global" "greedy"] self)
    /\ (~ In selector (Pop.selection port) ->
        apply_step exec port (operator, selector) self =
        perform_all reduce exec port
          [Exec ("self.pop." ++ operator); EvaluateFitness;
           UpdatePositions "population" "all"; UpdatePositions "global" "greedy"] self).
Proof.
  intros S reduce exec port operator selector self.
  rewrite (apply_step_schedule S reduce). unfold step_schedule, recognisedb. simpl.
  destruct (in_dec string_dec selector (Pop.selection port)) as [H|H];
    split; intros H'; (reflexivity || contradiction).
Qed.

(** ** C4, C5: the compiled plan *)

Lemma format_parameters_eq (parameters : list (string * value)) (acc : list string) :
  fold_left format_parameter parameters acc = (acc ++ map argument_text parameters)%list.
Proof.
  revert acc; induction parameters as [|[k v] ps IH]; intros acc; simpl.
  - now rewrite app_nil_r.
  - rewrite IH. unfold append, argument_text. simpl.
    destruct v; now rewrite <- app_assoc.
Qed.

Lemma process_heuristic_eq (acc : list string * list string) (h : descriptor) :
  process_heuristic acc h =
  (append (fst acc) (source_text h), append (snd acc) (selector_of h)).
Proof.
  destruct acc as [ops sels], h as [[operator parameters] selector].
  unfold process_heuristic, source_text, operator_of, parameters_of, selector_of.
  cbn [fst snd].
  destruct (Z.geb_spec (Z.of_nat (List.length parameters)) 0) as [_|H]; [|lia].
  now rewrite format_parameters_eq.
Qed.

Lemma fold_process_heuristic_eq (hs : list descriptor) (acc : list string * list string) :
  fold_left process_heuristic hs acc =
  ((fst acc ++ map source_text hs)%list, (snd acc ++ map selector_of hs)%list).
Proof.
  revert acc; induction hs as [|h hs IH]; intros acc; simpl.
  - rewrite !app_nil_r. now destruct acc.
  - rewrite IH, process_heuristic_eq. unfold append. cbn [fst snd].
    now rewrite <- !app_assoc.
Qed.

Lemma process_heuristics_eq (hs : list descriptor) :
  process_heuristics hs = Ok (map source_text hs, map selector_of hs).
Proof. unfold process_heuristics. now rewrite fold_process_heuristic_eq. Qed.

(** C4, as the specification states it, fails: a descriptor whose operator
    is in no registry of the population (the synthetic one knows [halve] and
    [stay]) is compiled like any other, and the engine is built; the name is
    missed only when [run] evaluates the text. *)
Lemma unknown_operator_is_compiled :
  Exists (fun h => ~ In (operator_of h) ["halve"; "stay"])
    [("no_such_operator", [], "greedy")]
  /\ process_heuristics [("no_such_operator", [], "greedy")]
     = Ok (["no_such_operator()"], ["greedy"])
  /\ process_heuristics [("no_such_operator", [], "greedy")]
     <> Raise UnknownOperatorError
  /\ exists self,
       init demo_population [("no_such_operator", [], "greedy")] 2 3 false = Ok self
       /\ run Np.in_order Synthetic.exec Synthetic.port self
          = Raise (PortError "AttributeError").
Proof.
  split.
  { constructor. simpl. intros [H|[H|[]]]; discriminate. }
  split; [reflexivity|]. split; [discriminate|].
  eexists. split; [reflexivity | vm_compute; reflexivity].
Qed.

(** C4 (amended). Plan compilation checks no operator name and never raises:
    for every sequence of descriptors it returns the whole plan, one
    operator text and one selector per descriptor, in declared order. *)
Theorem process_heuristics_total :
  forall simple_heuristics : list descriptor,
    exists executable_operators selectors,
      process_heuristics simple_heuristics = Ok (executable_operators, selectors)
      /\ List.length executable_operators = List.length simple_heuristics
      /\ List.length selectors = List.length simple_heuristics
      /\ Forall2 (fun h text => exists arguments,
                    text = operator_of h ++ "(" ++ arguments ++ ")")
           simple_heuristics executable_operators
      /\ selectors = map selector_of simple_heuristics.
Proof.
  intros hs. exists (map source_text hs), (map selector_of hs).
  split; [apply process_heuristics_eq|].
  rewrite !length_map. repeat split.
  induction hs as [|h hs IH]; simpl; constructor; [|exact IH].
  now exists (join "," (map argument_text (parameters_of h))).
Qed.

Lemma evaluated_texts_app (l1 l2 : list action) :
  evaluated_texts (l1 ++ l2) = (evaluated_texts l1 ++ evaluated_texts l2)%list.
Proof. apply flat_map_app. Qed.

Lemma evaluated_texts_steps {S : Type} (port : Pop.Port S) (plan : list (string * string)) :
  evaluated_texts (flat_map (step_schedule port) plan)
  = map (fun step => "self.pop." ++ fst step) plan.
Proof.
  induction plan as [|step plan IH]; [reflexivity|].
  cbn [flat_map]. rewrite evaluated_texts_app, IH. reflexivity.
Qed.

Lemma evaluated_texts_run {S : Type} (port : Pop.Port S) (plan : list (string * string))
    (T : Z) :
  evaluated_texts (run_schedule port plan T)
  = flat_map (fun _ => map (fun step => "self.pop." ++ fst step) plan) (range 1 (T + 1)).
Proof.
  unfold run_schedule. rewrite evaluated_texts_app. cbn [bootstrap_schedule app].
  change (evaluated_texts bootstrap_schedule) with (@nil string). cbn [app].
  induction (range 1 (T + 1)) as [|k l IH]; [reflexivity|].
  cbn [flat_map]. rewrite evaluated_texts_app, IH. f_equal.
  unfold iteration_schedule.
  change (SetIteration k :: flat_map (step_schedule port) plan
          ++ [UpdateHistoricals; Report])%list
    with ([SetIteration k] ++ flat_map (step_schedule port) plan
          ++ [UpdateHistoricals; Report])%list.
  rewrite !evaluated_texts_app, evaluated_texts_steps. cbn. now rewrite app_nil_r.
Qed.

(** C5, as the specification states it, fails: the plan holds source text,
    and the run of the synthetic population has logged the evaluation of
    that text.  The text is evaluated with the engine in scope: one that
    binds [self.operators] to another plan changes what the next iteration
    evaluates. *)
Lemma operator_is_evaluated_source_text :
  (exists self self',
      init demo_population demo_heuristics 2 1 false = Ok self
      /\ operators self = ["halve()"; "stay(k = 1)"]
      /\ run Np.in_order Synthetic.exec Synthetic.port self = Ok self'
      /\ In (Exec "self.pop.halve()") (Pop.internals (pop self'))
      /\ In (Exec "self.pop.stay(k = 1)") (Pop.internals (pop self')))
  /\ (exists self self',
         init demo_population rebinding_heuristics 2 2 false = Ok self
         /\ run Np.in_order Synthetic.exec Synthetic.port self = Ok self'
         /\ evaluated_texts (Pop.internals (pop self'))
            = ["self.pop.halve(); self.operators = ['stay()']; self.pop.stay()";
               "self.pop.stay()"]
         /\ evaluated_texts (Pop.internals (pop self'))
            <> flat_map
                 (fun _ => map (fun h => "self.pop." ++ source_text h)
                             rebinding_heuristics)
                 (range 1 (2 + 1))).
Proof.
  split.
  - eexists. eexists. split; [reflexivity|]. split; [reflexivity|].
    split; [vm_compute; reflexivity|]. cbn. intuition.
  - eexists. eexists. split; [reflexivity|].
    split; [vm_compute; reflexivity|]. split; [reflexivity|].
    vm_compute. discriminate.
Qed.

(** C5 (amended). The compiled plan keeps every operator as Python source
    text, [name(k1 = v1,k2 = v2,...)] with string values quoted, built by
    formatting the descriptor; and, when these texts touch the population
    only, the operators invoked in a run are, iteration after iteration and
    in declared order, the evaluations by [exec] of [self.pop.] followed by
    that text. *)
Theorem operators_are_source_text :
  forall (S : Type) (reduce : Np.reduction) (exec : evaluator S) (port : Pop.Port S)
         (population : Pop.Population S)
         (simple_heuristics : list descriptor) (agents T : Z) (v : bool),
    plan_touches_population_only exec (map source_text simple_heuristics) ->
    exists self schedule,
      init population simple_heuristics agents T v = Ok self
      /\ operators self = map source_text simple_heuristics
      /\ selectors self = map selector_of simple_heuristics
      /\ run reduce exec port self = perform_all reduce exec port schedule self
      /\ evaluated_texts schedule
         = flat_map
             (fun _ => map (fun h => "self.pop." ++ source_text h) simple_heuristics)
             (range 1 (T + 1)).
Proof.
  intros S reduce exec port population hs agents T v F.
  unfold init. rewrite process_heuristics_eq. cbn [bind fst snd].
  eexists. eexists. split; [reflexivity|]. cbn [operators selectors].
  split; [reflexivity|]. split; [reflexivity|].
  split; [apply run_as_schedule; exact F|].
  cbn [operators selectors num_iterations]. rewrite evaluated_texts_run.
  apply List.flat_map_ext. intros _.
  induction hs as [|h hs IH]; [reflexivity|]. cbn [map combine fst].
  rewrite IH; [reflexivity|].
  intros operator Hin. apply F. now right.
Qed.

Lemma operators_are_source_text_witness :
  exists self schedule,
    init demo_population demo_heuristics 2 3 false = Ok self
    /\ operators self = map source_text demo_heuristics
    /\ selectors self = map selector_of demo_heuristics
    /\ run Np.in_order Synthetic.exec Synthetic.port self
       = perform_all Np.in_order Synthetic.exec Synthetic.port schedule self
    /\ evaluated_texts schedule
       = flat_map
           (fun _ => map (fun h => "self.pop." ++ source_text h) demo_heuristics)
           (range 1 (3 + 1)).
Proof.
  apply (operators_are_source_text Synthetic.State Np.in_order Synthetic.exec
           Synthetic.port demo_population demo_heuristics 2 3 false).
  exact demo_plan_touches_population_only.
Defined.

(** ** C6, C8: the centroid is assigned, not appended *)

Section CentroidFacts.

Variable S : Type.
Variable reduce : Np.reduction.
Variable exec : evaluator S.
Variable port : Pop.Port S.

Implicit Types self : Metaheuristic S.

Lemma update_historicals_centroid self self' :
  update_historicals reduce self = Ok self' -> holds_current_centroid reduce self'.
Proof.
  intros H. apply update_historicals_Ok in H
    as (c & r & s & Hc & _ & _ & Ep & _ & _ & _ & Ec & _).
  unfold holds_current_centroid. now rewrite Ep, Ec.
Qed.

Lemma iterations_centroid l : forall self self',
  holds_current_centroid reduce self ->
  for_each (iterate reduce exec port) l self = Ok self' ->
  holds_current_centroid reduce self'.
Proof.
  induction l as [|k l IH]; intros self self' Hc H; simpl in H.
  - now injection H as <-.
  - apply bind_Ok in H as (s1 & H1 & H). apply (IH s1); [|exact H].
    apply iterate_Ok in H1 as (s0 & _ & H1). now apply update_historicals_centroid in H1.
Qed.

(** After a run only one centroid is left: that of the final positions. *)
Lemma run_centroid self self' :
  run reduce exec port self = Ok self' -> holds_current_centroid reduce self'.
Proof.
  intros H. apply run_Ok in H as (s5 & s6 & _ & _ & H6 & H & _).
  eapply iterations_centroid; [|exact H].
  now apply update_historicals_centroid in H6.
Qed.

End CentroidFacts.

(** C6. The code does not keep a centroid per recorded iteration: after the
    run of three iterations of the demonstration (four records, centroids 6,
    3, 1.5 and 0.75), [historical_centroid] is the last centroid alone, a
    vector of one coordinate, while the histories appended to hold four
    entries. *)
Theorem centroid_history_is_not_kept :
  exists self',
    (mh <- init demo_population demo_heuristics 2 3 false ;;
     run Np.in_order Synthetic.exec Synthetic.port mh)
    = Ok self'
    /\ historical_centroid self' = [0.75%float]
    /\ Np.mean0 Np.in_order (Pop.positions (pop self')) = Ok (historical_centroid self')
    /\ List.length (historical_centroid self') = 1%nat
    /\ List.length (historical_radius self') = 4%nat.
Proof.
  eexists. split; [vm_compute; reflexivity|].
  split; [reflexivity|]. split; [reflexivity|]. split; reflexivity.
Qed.

(** C8. What a call of [__update_historicals] that returns has done: the
    population is the same object in the same state; the global fitness, the
    global position, the radius and the stagnation counter are appended to
    their sequences; but [historical_centroid] is replaced by the centroid
    of the current positions, the one recorded before is lost. *)
Theorem update_historicals_effects :
  forall (S : Type) (reduce : Np.reduction) (self self' : Metaheuristic S),
    update_historicals reduce self = Ok self' ->
    pop self' = pop self
    /\ (exists radius stagnation,
          historical_global_fitness self'
          = (historical_global_fitness self ++ [Pop.global_best_fitness (pop self)])%list
          /\ historical_global_position self'
             = (historical_global_position self
                ++ [Pop.global_best_position (pop self)])%list
          /\ historical_radius self' = (historical_radius self ++ [radius])%list
          /\ historical_stagnation self'
             = (historical_stagnation self ++ [stagnation])%list)
    /\ Np.mean0 reduce (Pop.positions (pop self)) = Ok (historical_centroid self').
Proof.
  intros S reduce self self' H.
  pose proof (update_historicals_centroid S reduce self self' H) as Hc.
  apply update_historicals_Ok in H
    as (c & r & s & _ & _ & _ & Ep & _ & E1 & E2 & _ & E3 & E4).
  split; [exact Ep|]. split.
  - exists r, s. unfold append in *. auto.
  - unfold holds_current_centroid in Hc. now rewrite Ep in Hc.
Qed.

Lemma update_historicals_effects_witness :
  exists self',
    update_historicals Np.in_order demo_recorded_once = Ok self'
    /\ historical_centroid demo_recorded_once = [6%float]
    /\ historical_centroid self' = [3%float]
    /\ pop self' = pop demo_recorded_once
    /\ (exists radius stagnation,
          historical_global_fitness self'
          = (historical_global_fitness demo_recorded_once
             ++ [Pop.global_best_fitness (pop demo_recorded_once)])%list
          /\ historical_global_position self'
             = (historical_global_position demo_recorded_once
                ++ [Pop.global_best_position (pop demo_recorded_once)])%list
          /\ historical_radius self'
             = (historical_radius demo_recorded_once ++ [radius])%list
          /\ historical_stagnation self'
             = (historical_stagnation demo_recorded_once ++ [stagnation])%list)
    /\ Np.mean0 Np.in_order (Pop.positions (pop demo_recorded_once))
       = Ok (historical_centroid self').
Proof.
  eexists. split; [vm_compute; reflexivity|].
  split; [reflexivity|]. split; [reflexivity|].
  apply (update_historicals_effects Synthetic.State Np.in_order demo_recorded_once).
  vm_compute; reflexivity.
Defined.

(** ** C9: the radius *)

(** *** binary64 facts, from the specification of the primitive floats *)

Lemma binary_round_aux_sign (s : bool) (m e : Z) (l : location) :
  let r := binary_round_aux prec emax s m e l in
  r = S754_zero s \/ r = S754_infinity s \/ r = S754_nan
  \/ exists m' e', r = S754_finite s m' e'.
Proof.
  unfold binary_round_aux.
  destruct (shr_fexp prec emax m e l) as [mrs' e'].
  destruct (shr_fexp prec emax _ e' loc_Exact) as [mrs'' e''].
  destruct (shr_m mrs'') as [|p|p]; auto.
  destruct (Z.leb e'' (emax - prec)); eauto 6.
Qed.

Lemma sqrt_nonneg_or_nan (x : float) : nonneg_or_nan (PrimFloat.sqrt x).
Proof.
  unfold nonneg_or_nan, PrimFloat.is_nan.
  rewrite leb_spec, eqb_spec, sqrt_spec. change (Prim2SF 0) with (S754_zero false).
  unfold SF64sqrt, SFsqrt.
  destruct (Prim2SF x) as [s|s| |s m e]; try destruct s; simpl; auto.
  destruct (SFsqrt_core_binary prec emax (Z.pos m) e) as [[mz ez] lz].
  destruct (binary_round_aux_sign false mz ez lz) as [H|[H|[H|(m' & e' & H)]]];
    rewrite H; simpl; auto.
Qed.

Lemma SFeqb_finite_refl (s : bool) (m : positive) (e : Z) :
  SFeqb (S754_finite s m e) (S754_finite s m e) = true.
Proof.
  unfold SFeqb, SFcompare.
  destruct s; rewrite Z.compare_refl, Pos.compare_cont_refl; reflexivity.
Qed.

Lemma nonneg_or_nan_not_negative (r : float) :
  nonneg_or_nan r -> PrimFloat.ltb r 0 = false.
Proof.
  unfold nonneg_or_nan, PrimFloat.is_nan.
  rewrite leb_spec, eqb_spec, ltb_spec. change (Prim2SF 0) with (S754_zero false).
  destruct (Prim2SF r) as [s|s| |s m e].
  - reflexivity.
  - destruct s; simpl; intros [H|H]; try discriminate; reflexivity.
  - reflexivity.
  - rewrite SFeqb_finite_refl. destruct s; simpl; intros [H|H];
      try discriminate; reflexivity.
Qed.

Lemma finite_cases (x : float) :
  PrimFloat.is_finite x = true ->
  (exists s, Prim2SF x = S754_zero s) \/ exists s m e, Prim2SF x = S754_finite s m e.
Proof.
  unfold PrimFloat.is_finite, PrimFloat.is_nan, PrimFloat.is_infinity.
  rewrite !eqb_spec, abs_spec. change (Prim2SF infinity) with (S754_infinity false).
  destruct (Prim2SF x) as [s|s| |s m e]; simpl; try discriminate; eauto.
  rewrite orb_true_r. discriminate.
Qed.

(** [x - x] is [+0.0] for every finite [x]. *)
Lemma float_sub_diag (x : float) :
  PrimFloat.is_finite x = true -> PrimFloat.sub x x = 0%float.
Proof.
  intros H. apply Prim2SF_inj. rewrite sub_spec. change (Prim2SF 0) with (S754_zero false).
  destruct (finite_cases x H) as [(s & E)|(s & m & e & E)]; rewrite E.
  - now destruct s.
  - unfold SF64sub, SFsub. rewrite Z.sub_diag. reflexivity.
Qed.

(** *** The maximum of the norms *)

Lemma maximum_cases (a b : float) : Np.maximum a b = a \/ Np.maximum a b = b.
Proof. unfold Np.maximum. destruct (_ || _); auto. Qed.

Lemma fold_maximum_In (v : list float) : forall x,
  In (fold_left Np.maximum v x) (x :: v).
Proof.
  induction v as [|y v IH]; intros x; simpl; [now left|].
  destruct (maximum_cases x y) as [E|E]; rewrite E.
  - destruct (IH x) as [H|H]; [now left | now right; right].
  - right. apply IH.
Qed.

Lemma max_In (v : list float) (r : float) : Np.max v = Ok r -> In r v.
Proof.
  unfold Np.max. destruct v as [|x v]; [discriminate|].
  intros [= <-]. apply fold_maximum_In.
Qed.

(** *** The rows whose norms are compared *)

Lemma is_matrix_nonempty (a : list (list float)) : Np.is_matrix a = true -> a <> [].
Proof. destruct a; [discriminate | discriminate]. Qed.

(** Every row of [x - np.tile(c, (n, 1))] is a row of [x] minus [c]; an
    empty [x] gives rows without columns. *)
Lemma sub_tile_rows (x : list (list float)) (c : list float) (n : Z)
    (d : list (list float)) :
  Np.sub_tile x c n = Ok d ->
  forall row, In row d ->
              exists r, (In r x \/ (x = [] /\ r = [])) /\ row = Np.row_sub r c.
Proof.
  unfold Np.sub_tile. destruct (n <? 0)%Z; [discriminate|].
  set (a := match x with [] => [[]] | _ :: _ => x end).
  assert (Ha : forall r, In r a -> In r x \/ (x = [] /\ r = [])).
  { subst a. destruct x as [|r0 x]; simpl.
    - intros r [<-|[]]. now right.
    - intros r H. now left. }
  destruct (Np.is_matrix a && _) eqn:E; [|discriminate].
  apply andb_true_iff in E as [M _].
  destruct (_ || _).
  - intros [= <-] row H. apply in_map_iff in H as (r & <- & H). exists r. auto.
  - destruct (Nat.eqb _ 1); [|discriminate].
    intros [= <-] row H. apply repeat_spec in H. subst row.
    exists (hd [] a). split; [|reflexivity]. apply Ha.
    destruct a as [|r0 a']; [discriminate | now left].
Qed.

(** The radius is the norm of one of these rows. *)
Lemma radius_of_row (reduce : Np.reduction) (n : Z) (x : list (list float))
    (c : list float) (r : float) :
  radius_of reduce n x c = Ok r ->
  exists row,
    (In row x \/ (x = [] /\ row = []))
    /\ r = PrimFloat.sqrt (reduce (map (fun d => PrimFloat.mul d d) (Np.row_sub row c))).
Proof.
  unfold radius_of. intros H. apply bind_Ok in H as (d & Hd & H).
  apply max_In in H. unfold Np.norm2_rows in H.
  apply in_map_iff in H as (row & <- & H).
  destruct (sub_tile_rows x c n d Hd row H) as (r0 & Hr0 & ->). eauto.
Qed.

Lemma radius_of_nonneg_or_nan (reduce : Np.reduction) (n : Z) (x : list (list float))
    (c : list float) (r : float) :
  radius_of reduce n x c = Ok r -> nonneg_or_nan r.
Proof.
  intros H. apply radius_of_row in H as (row & _ & ->). apply sqrt_nonneg_or_nan.
Qed.

(** The sum in index order is obtained from [0.0] and the terms by
    additions. *)
Lemma in_order_summation : Np.summation Np.in_order.
Proof.
  intros P P0 Padd v Hv. unfold Np.in_order.
  revert P0. generalize 0%float as acc.
  induction Hv as [|d v Hd Hv IH]; intros acc Hacc; simpl; [exact Hacc|].
  apply IH. now apply Padd.
Qed.

(** *** Finite positions: no NaN on the way to the radius *)

Lemma shr_1_nonneg (mrs : shr_record) : 0 <= shr_m mrs -> 0 <= shr_m (shr_1 mrs).
Proof.
  destruct mrs as [m r s]. simpl.
  destruct m as [|[p|p|]|[p|p|]]; simpl; lia.
Qed.

Lemma iter_pos_shr_1_nonneg (p : positive) : forall mrs,
  0 <= shr_m mrs -> 0 <= shr_m (iter_pos shr_1 p mrs).
Proof.
  induction p as [p IH|p IH|]; intros mrs H; simpl.
  - apply IH, IH, shr_1_nonneg, H.
  - apply IH, IH, H.
  - apply shr_1_nonneg, H.
Qed.

Lemma shr_fexp_nonneg (m e : Z) (l : location) :
  0 <= m -> 0 <= shr_m (fst (shr_fexp prec emax m e l)).
Proof.
  intros H. unfold shr_fexp, shr.
  assert (H0 : 0 <= shr_m (shr_record_of_loc m l)).
  { destruct l as [|[]]; exact H. }
  destruct (fexp prec emax (Zdigits2 m + e) - e) as [|p|p]; simpl; try exact H0.
  apply iter_pos_shr_1_nonneg, H0.
Qed.

Lemma round_nearest_even_nonneg (m : Z) (l : location) :
  0 <= m -> 0 <= round_nearest_even m l.
Proof.
  intros H. destruct l as [|[]]; simpl; try lia. destruct (Z.even m); lia.
Qed.

(** Rounding a non-negative mantissa gives a number of the sign asked for. *)
Lemma binary_round_aux_number (s : bool) (m e : Z) (l : location) :
  0 <= m ->
  let r := binary_round_aux prec emax s m e l in
  r = S754_zero s \/ r = S754_infinity s \/ exists m' e', r = S754_finite s m' e'.
Proof.
  intros H. unfold binary_round_aux.
  pose proof (shr_fexp_nonneg m e l H) as H1.
  destruct (shr_fexp prec emax m e l) as [mrs' e']. simpl in H1.
  pose proof (shr_fexp_nonneg _ e' loc_Exact
                (round_nearest_even_nonneg (shr_m mrs') (loc_of_shr_record mrs') H1)) as H2.
  destruct (shr_fexp prec emax _ e' loc_Exact) as [mrs'' e'']. simpl in H2.
  destruct (shr_m mrs'') as [|p|p]; [auto| |lia].
  destruct (Z.leb e'' (emax - prec)); eauto.
Qed.

Lemma binary_round_number (s : bool) (m : positive) (e : Z) :
  let r := binary_round prec emax s m e in
  r = S754_zero s \/ r = S754_infinity s \/ exists m' e', r = S754_finite s m' e'.
Proof.
  unfold binary_round. destruct (shl_align _ _ _) as [mz ez].
  apply binary_round_aux_number. lia.
Qed.

Lemma binary_normalize_number (z e : Z) : is_number (binary_normalize prec emax z e false).
Proof.
  unfold binary_normalize, is_number. destruct z as [|p|p]; [discriminate| |].
  - destruct (binary_round_number false p e) as [H|[H|(m' & e' & H)]];
      rewrite H; discriminate.
  - destruct (binary_round_number true p e) as [H|[H|(m' & e' & H)]];
      rewrite H; discriminate.
Qed.

Lemma SFsub_number (x y : spec_float) :
  finite_number x -> is_number y -> is_number (SFsub prec emax x y).
Proof.
  intros [(s & ->)|(s & m & e & ->)] Hy; destruct y as [sy|sy| |sy my ey];
    try (now destruct Hy); unfold SFsub; try discriminate.
  - destruct s, sy; discriminate.
  - apply binary_normalize_number.
Qed.

Lemma SFmul_square (x : spec_float) : is_number x -> nonneg_number (SFmul prec emax x x).
Proof.
  unfold nonneg_number. intros H. destruct x as [s|s| |s m e]; [| |now destruct H|]; simpl.
  - rewrite xorb_nilpotent. auto.
  - rewrite xorb_nilpotent. auto.
  - rewrite xorb_nilpotent. apply binary_round_aux_number. lia.
Qed.

Lemma SFadd_nonneg (x y : spec_float) :
  nonneg_number x -> nonneg_number y -> nonneg_number (SFadd prec emax x y).
Proof.
  unfold nonneg_number.
  intros [->|[->|(mx & ex & ->)]] [->|[->|(my & ey & ->)]]; simpl; eauto.
  apply binary_round_number.
Qed.

Lemma SFsqrt_nonneg (x : spec_float) : nonneg_number x -> nonneg_number (SFsqrt prec emax x).
Proof.
  unfold nonneg_number.
  intros [->|[->|(m & e & ->)]]; simpl; auto.
  unfold SFsqrt_core_binary.
  set (m' := match _ with Z.pos _ => _ | _ => _ end).
  assert (Hq : 0 <= fst (Z.sqrtrem m')).
  { unfold Z.sqrtrem. destruct m' as [|p|p]; simpl; try lia.
    destruct (Pos.sqrtrem p) as [q [|r|]]; simpl; lia. }
  destruct (Z.sqrtrem m') as [q r]. simpl in Hq.
  apply binary_round_aux_number. exact Hq.
Qed.

Lemma is_nan_false (x : float) : PrimFloat.is_nan x = false -> is_number (Prim2SF x).
Proof.
  unfold PrimFloat.is_nan, is_number. rewrite eqb_spec. intros H E.
  rewrite E in H. discriminate.
Qed.

Lemma nonneg_number_leb (r : float) :
  nonneg_number (Prim2SF r) -> PrimFloat.leb 0 r = true /\ PrimFloat.is_nan r = false.
Proof.
  unfold PrimFloat.is_nan. rewrite leb_spec, eqb_spec.
  change (Prim2SF 0) with (S754_zero false).
  intros [->|[->|(m & e & ->)]]; [split; reflexivity | split; reflexivity |].
  rewrite SFeqb_finite_refl. split; reflexivity.
Qed.

Lemma sub_number (x c : float) :
  PrimFloat.is_finite x = true -> PrimFloat.is_nan c = false ->
  is_number (Prim2SF (PrimFloat.sub x c)).
Proof.
  intros Hx Hc. rewrite sub_spec. apply SFsub_number.
  - apply finite_cases, Hx.
  - apply is_nan_false, Hc.
Qed.

Lemma vsub_number (row : list float) : forall c,
  Forall (fun x => PrimFloat.is_finite x = true) row ->
  Forall (fun y => PrimFloat.is_nan y = false) c ->
  Forall (fun d => is_number (Prim2SF d)) (Np.vsub row c).
Proof.
  unfold Np.vsub. induction row as [|x row IH]; intros c Hrow Hc; simpl; [constructor|].
  destruct c as [|y c]; [constructor|]. inversion Hrow; inversion Hc; subst.
  constructor; [now apply sub_number | now apply IH].
Qed.
Lemma map_sub_number_l (row : list float) (c0 : float) :
  Forall (fun x => PrimFloat.is_finite x = true) row ->
  PrimFloat.is_nan c0 = false ->
  Forall (fun d => is_number (Prim2SF d)) (map (fun x => PrimFloat.sub x c0) row).
Proof.
  intros Hrow Hc. apply Forall_map. eapply Forall_impl; [|exact Hrow].
  intros x Hx. now apply sub_number.
Qed.

Lemma map_sub_number_r (r0 : float) (c : list float) :
  PrimFloat.is_finite r0 = true ->
  Forall (fun y => PrimFloat.is_nan y = false) c ->
  Forall (fun d => is_number (Prim2SF d)) (map (fun y => PrimFloat.sub r0 y) c).
Proof.
  intros Hr Hc. apply Forall_map. eapply Forall_impl; [|exact Hc].
  intros y Hy. now apply sub_number.
Qed.

Lemma row_sub_number (row c : list float) :
  Forall (fun x => PrimFloat.is_finite x = true) row ->
  Forall (fun y => PrimFloat.is_nan y = false) c ->
  Forall (fun d => is_number (Prim2SF d)) (Np.row_sub row c).
Proof.
  intros Hrow Hc. unfold Np.row_sub.
  destruct (Nat.eqb _ _); [now apply vsub_number|].
  destruct c as [|c0 [|c1 c]].
  - destruct row as [|r0 [|r1 row]]; [constructor | | constructor].
    apply map_sub_number_r; [now inversion Hrow | exact Hc].
  - apply map_sub_number_l; [exact Hrow | now inversion Hc].
  - destruct row as [|r0 [|r1 row]]; [constructor | | constructor].
    apply map_sub_number_r; [now inversion Hrow | exact Hc].
Qed.

Lemma sum_of_squares_nonneg (reduce : Np.reduction) (row : list float) :
  Np.summation reduce ->
  Forall (fun d => is_number (Prim2SF d)) row ->
  nonneg_number (Prim2SF (reduce (map (fun d => PrimFloat.mul d d) row))).
Proof.
  intros Hsum Hrow.
  apply (Hsum (fun f => nonneg_number (Prim2SF f))).
  - left. reflexivity.
  - intros a b Ha Hb. rewrite add_spec. now apply SFadd_nonneg.
  - apply Forall_map. eapply Forall_impl; [|exact Hrow].
    intros d Hd. rewrite mul_spec. now apply SFmul_square.
Qed.

(** With finite positions and a centroid that holds no NaN, the radius is
    a number and [0 <= radius]. *)
Lemma radius_of_nonneg (reduce : Np.reduction) (n : Z) (x : list (list float))
    (c : list float) (r : float) :
  Np.summation reduce ->
  Forall (Forall (fun d => PrimFloat.is_finite d = true)) x ->
  Forall (fun y => PrimFloat.is_nan y = false) c ->
  radius_of reduce n x c = Ok r ->
  PrimFloat.leb 0 r = true /\ PrimFloat.is_nan r = false.
Proof.
  intros Hsum Hx Hc H. apply radius_of_row in H as (row & Hrow & ->).
  apply nonneg_number_leb. rewrite sqrt_spec. apply SFsqrt_nonneg.
  apply sum_of_squares_nonneg; [exact Hsum|]. apply row_sub_number; [|exact Hc].
  destruct Hrow as [Hin|[_ ->]]; [|constructor].
  rewrite Forall_forall in Hx. now apply Hx.
Qed.

(** *** Agents that share one position *)

Lemma vsub_diag (p : list float) :
  Forall (fun x => PrimFloat.is_finite x = true) p ->
  Np.vsub p p = repeat 0%float (List.length p).
Proof.
  unfold Np.vsub. induction 1 as [|x p Hx Hp IH]; simpl; [reflexivity|].
  now rewrite float_sub_diag, IH.
Qed.

Lemma row_sub_diag (p : list float) :
  Forall (fun x => PrimFloat.is_finite x = true) p ->
  Np.row_sub p p = repeat 0%float (List.length p).
Proof.
  intros Hp. unfold Np.row_sub. rewrite Nat.eqb_refl. now apply vsub_diag.
Qed.

Lemma row_sub_nil (c : list float) : Np.row_sub [] c = [].
Proof. unfold Np.row_sub. destruct c as [|c0 [|c1 c]]; reflexivity. Qed.

Lemma sum_of_squares_zero (reduce : Np.reduction) (k : nat) :
  Np.summation reduce ->
  reduce (map (fun d => PrimFloat.mul d d) (repeat 0%float k)) = 0%float.
Proof.
  intros Hsum. apply (Hsum (fun f => f = 0%float)).
  - reflexivity.
  - intros a b -> ->. reflexivity.
  - apply Forall_map. apply Forall_forall. intros d Hd.
    apply repeat_spec in Hd. subst d. reflexivity.
Qed.

(** The radius of agents that all sit on the centroid is [+0.0]. *)
Lemma radius_of_coincident (reduce : Np.reduction) (n : Z) (x : list (list float))
    (p : list float) (r : float) :
  Np.summation reduce ->
  Forall (eq p) x ->
  Forall (fun d => PrimFloat.is_finite d = true) p ->
  radius_of reduce n x p = Ok r -> r = 0%float.
Proof.
  intros Hsum Hx Hp H. apply radius_of_row in H as (row & Hrow & ->).
  assert (E : exists k, Np.row_sub row p = repeat 0%float k).
  { destruct Hrow as [Hin|[_ ->]].
    - rewrite Forall_forall in Hx. rewrite <- (Hx row Hin).
      eexists. now apply row_sub_diag.
    - exists 0%nat. apply row_sub_nil. }
  destruct E as (k & ->). now rewrite sum_of_squares_zero.
Qed.

Section RadiusFacts.

Variable S : Type.
Variable reduce : Np.reduction.
Variable exec : evaluator S.
Variable port : Pop.Port S.

Implicit Types self : Metaheuristic S.

Lemma update_historicals_radius self self' :
  update_historicals reduce self = Ok self' ->
  exists r, historical_radius self' = (historical_radius self ++ [r])%list
            /\ nonneg_or_nan r.
Proof.
  intros H. apply update_historicals_Ok in H
    as (c & r & s & _ & Hr & _ & _ & _ & _ & _ & _ & E3 & _).
  exists r. split; [exact E3|]. eapply radius_of_nonneg_or_nan. exact Hr.
Qed.

Lemma update_historicals_radii self self' :
  radii_nonneg_or_nan self -> update_historicals reduce self = Ok self' ->
  radii_nonneg_or_nan self'.
Proof.
  intros R H. apply update_historicals_radius in H as (r & E & Hr).
  unfold radii_nonneg_or_nan. rewrite E.
  apply Forall_app. split; [exact R|]. now constructor.
Qed.

Lemma iterations_radii l self self' :
  plan_touches_population_only exec (operators self) ->
  radii_nonneg_or_nan self -> for_each (iterate reduce exec port) l self = Ok self' ->
  radii_nonneg_or_nan self'.
Proof.
  intros F R H.
  apply (iterations_framed S reduce exec port (fun _ => radii_nonneg_or_nan)
           (fun _ => True)) with (l := l) (n := 0%nat) (self := self);
    try assumption; [|apply Forall_True].
  intros m k s s' _ Fs Rs Hs.
  apply (iterate_framed S reduce exec port _ _ _ Fs) in Hs
    as (s1 & _ & [_ (_ & _ & _ & E & _)] & H2 & _).
  apply (update_historicals_radii s1); [|exact H2].
  unfold radii_nonneg_or_nan. rewrite E. exact Rs.
Qed.

Lemma run_radii self self' :
  plan_touches_population_only exec (operators self) ->
  radii_nonneg_or_nan self -> run reduce exec port self = Ok self' ->
  radii_nonneg_or_nan self'.
Proof.
  intros F R H.
  apply run_Ok in H as (s5 & s6 & [_ (_ & _ & _ & E & _)] & _ & H6 & H & C6).
  eapply iterations_radii; [eapply frame_passes; eassumption | | exact H].
  apply (update_historicals_radii s5); [|exact H6].
  unfold radii_nonneg_or_nan. rewrite E. exact R.
Qed.

End RadiusFacts.

(** C9, as the specification states it, fails in binary64: three agents at
    the same position 0.1 have the centroid (0.1 + 0.1 + 0.1) / 3 =
    0.10000000000000002, one unit in the last place above 0.1, and the
    radius recorded for them, at the bootstrap and after the iteration, is
    2^-56 and not 0.  And the radius history holds what the evaluated texts
    put there: an operator whose text appends -1.0 leaves negative
    entries. *)
Lemma coincident_agents_positive_radius :
  (exists self',
      (mh <- init coincident_population idle_heuristics 3 1 false ;;
       run Np.in_order Synthetic.exec Synthetic.port mh)
      = Ok self'
      /\ Pop.positions (pop self') = [[tenth]; [tenth]; [tenth]]
      /\ historical_centroid self' = [0x1.999999999999bp-4%float]
      /\ historical_radius self' = [0x1p-56%float; 0x1p-56%float]
      /\ PrimFloat.eqb 0x1p-56 0 = false)
  /\ (exists self',
         (mh <- init demo_population appending_heuristics 2 1 false ;;
          run Np.in_order Synthetic.exec Synthetic.port mh)
         = Ok self'
         /\ historical_radius self' = [2%float; (-1)%float; 2%float]
         /\ PrimFloat.leb 0 (-1) = false).
Proof.
  split.
  - eexists. split; [vm_compute; reflexivity|].
    split; [reflexivity|]. split; [reflexivity|]. split; reflexivity.
  - eexists. split; [vm_compute; reflexivity|]. split; reflexivity.
Qed.

(** C9 (amended). Every radius that a record appends is non-negative or NaN
    (it is the maximum of square roots), so [radius < 0] never holds for
    it; and so for every entry of the radius history after a complete run of
    a freshly built engine whose operators touch the population only.  A
    record made from finite positions, the centroid computed for them
    holding no NaN, appends a radius with [0 <= radius]; and a record made
    while all agents occupy the same finite position, the centroid computed
    for them being exactly that position, appends the radius [0.0].  The
    sums are taken in any order. *)
Theorem recorded_radius_sign_and_zero :
  forall (S : Type) (reduce : Np.reduction) (exec : evaluator S) (port : Pop.Port S)
         (population : Pop.Population S)
         (simple_heuristics : list descriptor) (agents T : Z) (v : bool)
         (self self' : Metaheuristic S),
    Np.summation reduce ->
    init population simple_heuristics agents T v = Ok self ->
    plan_touches_population_only exec (operators self) ->
    run reduce exec port self = Ok self' ->
    Forall (fun r => PrimFloat.is_nan r = true \/ PrimFloat.leb 0 r = true)
      (historical_radius self')
    /\ Forall (fun r => PrimFloat.ltb r 0 = false) (historical_radius self')
    /\ (forall s s' : Metaheuristic S,
          update_historicals reduce s = Ok s' ->
          exists r,
            historical_radius s' = (historical_radius s ++ [r])%list
            /\ (PrimFloat.is_nan r = true \/ PrimFloat.leb 0 r = true)
            /\ PrimFloat.ltb r 0 = false)
    /\ (forall s s' : Metaheuristic S,
          update_historicals reduce s = Ok s' ->
          Forall (Forall (fun d => PrimFloat.is_finite d = true)) (Pop.positions (pop s)) ->
          Forall (fun y => PrimFloat.is_nan y = false) (historical_centroid s') ->
          exists r,
            historical_radius s' = (historical_radius s ++ [r])%list
            /\ PrimFloat.leb 0 r = true)
    /\ (forall (s s' : Metaheuristic S) (p : list float),
          update_historicals reduce s = Ok s' ->
          Forall (eq p) (Pop.positions (pop s)) ->
          Forall (fun d => PrimFloat.is_finite d = true) p ->
          historical_centroid s' = p ->
          historical_radius s' = (historical_radius s ++ [0%float])%list).
Proof.
  intros S reduce exec port population hs agents T v self self' Hsum Hinit F Hrun.
  apply init_Ok in Hinit as (_ & _ & _ & _ & _ & _ & _ & E3 & _).
  assert (R : radii_nonneg_or_nan self').
  { apply (run_radii S reduce exec port self); [exact F| |exact Hrun].
    unfold radii_nonneg_or_nan. rewrite E3. constructor. }
  split; [exact R|]. split; [|split; [|split]].
  - eapply Forall_impl; [|exact R]. apply nonneg_or_nan_not_negative.
  - intros s s' H. apply update_historicals_radius in H as (r & E & Hr).
    exists r. split; [exact E|]. split; [exact Hr|].
    now apply nonneg_or_nan_not_negative.
  - intros s s' H Hx Hc.
    apply update_historicals_Ok in H
      as (c & r & st & _ & Hr & _ & _ & _ & _ & _ & Ec & E & _).
    exists r. split; [exact E|]. subst c.
    apply (radius_of_nonneg _ _ _ _ _ Hsum Hx Hc Hr).
  - intros s s' p H Hx Hp Hc.
    apply update_historicals_Ok in H
      as (c & r & st & _ & Hr & _ & _ & _ & _ & _ & Ec & E & _).
    rewrite E. unfold append. do 2 f_equal.
    apply (radius_of_coincident reduce (num_agents s) (Pop.positions (pop s)) p);
      first [exact Hsum | congruence].
Qed.

Lemma recorded_radius_sign_and_zero_witness :
  exists self self',
    init paired_population idle_heuristics 2 2 false = Ok self
    /\ run Np.in_order Synthetic.exec Synthetic.port self = Ok self'
    /\ historical_radius self' = [0%float; 0%float; 0%float]
    /\ Forall (fun r => PrimFloat.is_nan r = true \/ PrimFloat.leb 0 r = true)
         (historical_radius self').
Proof.
  eexists. eexists. split; [reflexivity|]. split; [vm_compute; reflexivity|].
  split; [reflexivity|].
  lazymatch goal with
  | |- Forall _ (historical_radius ?s') =>
      refine (proj1 (recorded_radius_sign_and_zero Synthetic.State Np.in_order
                       Synthetic.exec Synthetic.port paired_population idle_heuristics
                       2 2 false _ s' in_order_summation _ _ _));
        [reflexivity | exact idle_plan_touches_population_only
        | vm_compute; reflexivity]
  end.
Defined.

(** A position that is not a number makes the radius NaN, and [0 <= NaN]
    is false. *)
Example radius_of_nan_position :
  exists r,
    (c <- Np.mean0 Np.in_order [[nan]] ;; radius_of Np.in_order 1 [[nan]] c) = Ok r
    /\ PrimFloat.is_nan r = true /\ PrimFloat.leb 0 r = false.
Proof. eexists. split; [vm_compute; reflexivity|]. split; reflexivity. Qed.

(** No position at all: the centroid is NaN and, for at least one agent
    expected, the radius is 0.0; the record goes on. *)
Example radius_of_no_position :
  Np.mean0 Np.in_order [] = Ok [nan]
  /\ radius_of Np.in_order 3 [] [nan] = Ok 0%float
  /\ radius_of Np.in_order 0 [] [nan] = Raise ValueError.
Proof. split; [reflexivity|]. split; vm_compute; reflexivity. Qed.

(** * Further properties of the engine *)

(** ** What the stagnation counter counts *)

Lemma stagnation_tracks_entries (fitness : list float) (stagnation : list Z) (i : nat) (s : Z) :
  stagnation_tracks fitness stagnation ->
  nth_error stagnation (i + 1) = Some s ->
  exists f0 f1 s0,
    nth_error fitness i = Some f0 /\ nth_error fitness (i + 1) = Some f1
    /\ nth_error stagnation i = Some s0
    /\ s = if PrimFloat.eqb f0 f1 then s0 + 1 else 0.
Proof.
  intros T Hs.
  assert (Hi : (i + 1 < List.length fitness)%nat).
  { destruct T as (Hlen & _). rewrite <- Hlen. apply nth_error_Some. congruence. }
  destruct (stagnation_tracks_at fitness stagnation i T Hi) as (f0 & f1 & s0 & A & B & C & D).
  exists f0, f1, s0. repeat split; try assumption. congruence.
Qed.

(** The counter at index [i] is the length [k] of the longest stretch of
    unchanged fitness that ends at [i]. *)
Lemma stagnation_tracks_stretch (fitness : list float) (stagnation : list Z) :
  stagnation_tracks fitness stagnation ->
  forall (i : nat) (s : Z),
    nth_error stagnation i = Some s ->
    exists k : nat,
      s = Z.of_nat k /\ (k <= i)%nat
      /\ (forall j, (i - k <= j < i)%nat ->
            exists a b, nth_error fitness j = Some a /\ nth_error fitness (j + 1) = Some b
                        /\ PrimFloat.eqb a b = true)
      /\ ((k < i)%nat ->
            exists a b, nth_error fitness (i - k - 1) = Some a
                        /\ nth_error fitness (i - k) = Some b
                        /\ PrimFloat.eqb a b = false).
Proof.
  intros T. induction i as [|i IH]; intros s Hs.
  - destruct T as (_ & H0 & _). assert (s = 0) by congruence. subst s.
    exists 0%nat. repeat split; try lia.
  - replace (Datatypes.S i) with (i + 1)%nat in * by lia.
    destruct (stagnation_tracks_entries _ _ _ _ T Hs) as (f0 & f1 & s0 & A & B & C & ->).
    destruct (IH s0 C) as (k0 & -> & Hk0 & Hrun & Hstop).
    destruct (PrimFloat.eqb f0 f1) eqn:E.
    + exists (k0 + 1)%nat. repeat split; try lia.
      * intros j Hj. destruct (Nat.eq_dec j i) as [->|Hne]; [eauto|].
        apply Hrun. lia.
      * intros Hlt.
        replace (i + 1 - (k0 + 1) - 1)%nat with (i - k0 - 1)%nat by lia.
        replace (i + 1 - (k0 + 1))%nat with (i - k0)%nat by lia.
        apply Hstop. lia.
    + exists 0%nat. repeat split; try lia.
      intros _. replace (i + 1 - 0 - 1)%nat with i by lia.
      replace (i + 1 - 0)%nat with (i + 1)%nat by lia. eauto.
Qed.

(** X1. After a complete run of a freshly built engine whose operators touch
    the population only (and neither they nor the methods of the population
    assign the iteration counter) the stagnation counter of every recorded
    iteration [i] is a number [k] between 0 and [i]: the [k] steps that end
    at [i] left the global fitness unchanged ([==]), and the step before
    them, when there is one, changed it. *)
Theorem stagnation_is_length_of_unchanged_stretch :
  forall (S : Type) (reduce : Np.reduction) (exec : evaluator S) (port : Pop.Port S)
         (population : Pop.Population S)
         (simple_heuristics : list descriptor) (agents T : Z) (v : bool)
         (self self' : Metaheuristic S) (i : nat) (s : Z),
    Pop.port_keeps_iteration port ->
    init population simple_heuristics agents T v = Ok self ->
    plan_touches_population_only exec (operators self) ->
    plan_keeps_iteration exec (operators self) ->
    run reduce exec port self = Ok self' ->
    nth_error (historical_stagnation self') i = Some s ->
    exists k : nat,
      s = Z.of_nat k /\ (k <= i)%nat
      /\ (forall j, (i - k <= j < i)%nat ->
            exists a b, nth_error (historical_global_fitness self') j = Some a
                        /\ nth_error (historical_global_fitness self') (j + 1) = Some b
                        /\ PrimFloat.eqb a b = true)
      /\ ((k < i)%nat ->
            exists a b, nth_error (historical_global_fitness self') (i - k - 1) = Some a
                        /\ nth_error (historical_global_fitness self') (i - k) = Some b
                        /\ PrimFloat.eqb a b = false).
Proof.
  intros S reduce exec port population hs agents T v self self' i s K Hinit F Kx Hrun Hs.
  apply init_Ok in Hinit as (_ & _ & _ & _ & E1 & _ & _ & _ & E4).
  pose proof (run_tracked S reduce exec port (operators self) K F Kx self self'
                eq_refl E1 E4 Hrun) as Tr.
  exact (stagnation_tracks_stretch _ _ Tr i s Hs).
Qed.

Lemma stagnation_is_length_of_unchanged_stretch_witness :
  exists self self',
    init demo_population idle_heuristics 2 3 false = Ok self
    /\ run Np.in_order Synthetic.exec Synthetic.port self = Ok self'
    /\ nth_error (historical_stagnation self') 2 = Some 2
    /\ exists k : nat,
         2 = Z.of_nat k /\ (k <= 2)%nat
         /\ (forall j, (2 - k <= j < 2)%nat ->
               exists a b, nth_error (historical_global_fitness self') j = Some a
                           /\ nth_error (historical_global_fitness self') (j + 1) = Some b
                           /\ PrimFloat.eqb a b = true)
         /\ ((k < 2)%nat ->
               exists a b, nth_error (historical_global_fitness self') (2 - k - 1) = Some a
                           /\ nth_error (historical_global_fitness self') (2 - k) = Some b
                           /\ PrimFloat.eqb a b = false).
Proof.
  eexists. eexists. split; [reflexivity|]. split; [vm_compute; reflexivity|].
  split; [reflexivity|].
  lazymatch goal with
  | |- exists k : nat, _ /\ _ /\ (forall j, _ -> exists a b,
         nth_error (historical_global_fitness ?s') j = _ /\ _) /\ _ =>
      eapply (stagnation_is_length_of_unchanged_stretch Synthetic.State Np.in_order
                Synthetic.exec Synthetic.port demo_population idle_heuristics 2 3 false
                _ s');
        [exact synthetic_keeps_iteration | reflexivity
        | exact idle_plan_touches_population_only
        | apply synthetic_plan_keeps_iteration | vm_compute; reflexivity | reflexivity]
  end.
Defined.

(** X2. After a complete run of a freshly built engine whose operators touch
    the population only (and neither they nor the methods of the population
    assign the iteration counter): when no recorded step changes the global
    fitness, [stagnation[i] == i] for every recorded [i]; when every
    recorded step changes it, [stagnation[i] == 0]. *)
Theorem stagnation_of_constant_and_of_changing_fitness :
  forall (S : Type) (reduce : Np.reduction) (exec : evaluator S) (port : Pop.Port S)
         (population : Pop.Population S)
         (simple_heuristics : list descriptor) (agents T : Z) (v : bool)
         (self self' : Metaheuristic S),
    Pop.port_keeps_iteration port ->
    init population simple_heuristics agents T v = Ok self ->
    plan_touches_population_only exec (operators self) ->
    plan_keeps_iteration exec (operators self) ->
    run reduce exec port self = Ok self' ->
    ((forall j a b,
        nth_error (historical_global_fitness self') j = Some a ->
        nth_error (historical_global_fitness self') (j + 1) = Some b ->
        PrimFloat.eqb a b = true) ->
     forall i s, nth_error (historical_stagnation self') i = Some s -> s = Z.of_nat i)
    /\ ((forall j a b,
           nth_error (historical_global_fitness self') j = Some a ->
           nth_error (historical_global_fitness self') (j + 1) = Some b ->
           PrimFloat.eqb a b = false) ->
        forall i s, nth_error (historical_stagnation self') i = Some s -> s = 0).
Proof.
  intros S reduce exec port population hs agents T v self self' K Hinit F Kx Hrun.
  apply init_Ok in Hinit as (_ & _ & _ & _ & E1 & _ & _ & _ & E4).
  pose proof (run_tracked S reduce exec port (operators self) K F Kx self self'
                eq_refl E1 E4 Hrun) as Tr.
  split; intros Hall i s Hs;
    destruct (stagnation_tracks_stretch _ _ Tr i s Hs) as (k & -> & Hk & Hrun' & Hstop).
  - destruct (Nat.eq_dec k i) as [->|Hne]; [reflexivity|].
    destruct Hstop as (a & b & A & B & E); [lia|].
    replace (i - k)%nat with (i - k - 1 + 1)%nat in B by lia.
    rewrite (Hall _ _ _ A B) in E. discriminate.
  - destruct k as [|k]; [reflexivity|].
    destruct (Hrun' (i - 1)%nat) as (a & b & A & B & E); [lia|].
    rewrite (Hall _ _ _ A B) in E. discriminate.
Qed.

Lemma stagnation_of_constant_and_of_changing_fitness_witness :
  exists self self',
    init demo_population idle_heuristics 2 3 false = Ok self
    /\ run Np.in_order Synthetic.exec Synthetic.port self = Ok self'
    /\ historical_global_fitness self' = [4%float; 4%float; 4%float; 4%float]
    /\ forall i s, nth_error (historical_stagnation self') i = Some s -> s = Z.of_nat i.
Proof.
  eexists. eexists. split; [reflexivity|]. split; [vm_compute; reflexivity|].
  split; [reflexivity|].
  lazymatch goal with
  | |- forall i s, nth_error (historical_stagnation ?s') i = _ -> _ =>
      refine (proj1 (stagnation_of_constant_and_of_changing_fitness Synthetic.State
                       Np.in_order Synthetic.exec Synthetic.port demo_population
                       idle_heuristics 2 3 false _ s'
                       synthetic_keeps_iteration _ _ _ _) _);
        [reflexivity | exact idle_plan_touches_population_only
        | apply synthetic_plan_keeps_iteration | vm_compute; reflexivity |]
  end.
  intros j a b A B.
  rewrite Nat.add_1_r in B.
  do 3 (destruct j as [|j];
        [vm_compute in A, B; injection A as <-; injection B as <-; reflexivity|]).
  destruct j; vm_compute in B; discriminate.
Defined.

(** ** A run appends to the histories it finds *)

Section AppendFacts.

Variable S : Type.
Variable reduce : Np.reduction.
Variable exec : evaluator S.
Variable port : Pop.Port S.

Implicit Types self : Metaheuristic S.

Lemma extends_by_frame self self' : same_history self self' -> extends_by 0 self self'.
Proof.
  intros (E1 & E2 & _ & E3 & E4). exists [], [], [], [].
  rewrite !app_nil_r. repeat split; assumption.
Qed.

Lemma extends_by_trans a b (s1 s2 s3 : Metaheuristic S) :
  extends_by a s1 s2 -> extends_by b s2 s3 -> extends_by (a + b) s1 s3.
Proof.
  intros (f1 & p1 & r1 & t1 & A1 & A2 & A3 & A4 & L1 & L2 & L3 & L4)
         (f2 & p2 & r2 & t2 & B1 & B2 & B3 & B4 & M1 & M2 & M3 & M4).
  exists (f1 ++ f2)%list, (p1 ++ p2)%list, (r1 ++ r2)%list, (t1 ++ t2)%list.
  rewrite B1, B2, B3, B4, A1, A2, A3, A4, !length_app, <- !app_assoc.
  repeat split; lia.
Qed.

Lemma update_historicals_extends self self' :
  update_historicals reduce self = Ok self' -> extends_by 1 self self'.
Proof.
  intros H. apply update_historicals_Ok in H
    as (c & r & s & _ & _ & _ & _ & _ & E1 & E2 & _ & E3 & E4).
  exists [Pop.global_best_fitness (pop self)], [Pop.global_best_position (pop self)],
         [r], [s].
  unfold append in *. repeat split; assumption.
Qed.

Lemma iterate_extends k self self' :
  plan_touches_population_only exec (operators self) ->
  iterate reduce exec port k self = Ok self' -> extends_by 1 self self'.
Proof.
  intros F H. apply (iterate_framed S reduce exec port _ _ _ F) in H
    as (s1 & _ & [_ H1] & H2 & _).
  apply (extends_by_trans 0 1 self s1 self').
  - apply extends_by_frame. exact H1.
  - now apply update_historicals_extends.
Qed.

Lemma iterations_extend l self self' :
  plan_touches_population_only exec (operators self) ->
  for_each (iterate reduce exec port) l self = Ok self' ->
  extends_by (List.length l) self self'.
Proof.
  intros F H.
  apply (iterations_framed S reduce exec port (fun n s => extends_by n self s)
           (fun _ => True)) with (l := l) (n := 0%nat) (self := self);
    try assumption; [| apply Forall_True | apply extends_by_frame, same_history_refl].
  intros m k s s' _ Fs Xs Hs.
  apply (extends_by_trans m 1 self s s'); [exact Xs|].
  eapply iterate_extends; eassumption.
Qed.

Lemma run_extends self self' :
  plan_touches_population_only exec (operators self) ->
  0 <= num_iterations self ->
  run reduce exec port self = Ok self' ->
  extends_by (Z.to_nat (num_iterations self + 1)) self self'.
Proof.
  intros F HT H. apply run_Ok in H as (s5 & s6 & [C5 F5] & _ & H6 & H & C6).
  pose proof (update_historicals_extends _ _ H6) as X6.
  assert (E : num_iterations s6 = num_iterations self) by apply C6.
  apply iterations_extend in H; [|eapply frame_passes; eassumption].
  rewrite range_length, E in H.
  replace (Z.to_nat (num_iterations self + 1))
    with (0 + (1 + Z.to_nat (num_iterations self + 1 - 1)))%nat by lia.
  apply (extends_by_trans _ _ self s5 self'); [now apply extends_by_frame|].
  apply (extends_by_trans _ _ s5 s6 self'); assumption.
Qed.

(** *** The last entries are the current global best *)

Lemma update_historicals_best self self' :
  update_historicals reduce self = Ok self' -> holds_current_best self'.
Proof.
  intros H. apply update_historicals_Ok in H
    as (c & r & s & _ & _ & _ & Ep & _ & E1 & E2 & _).
  unfold holds_current_best. now rewrite E1, E2, Ep, !index_neg_last.
Qed.

Lemma iterations_best l : forall self self',
  holds_current_best self ->
  for_each (iterate reduce exec port) l self = Ok self' -> holds_current_best self'.
Proof.
  induction l as [|k l IH]; intros self self' Hc H; simpl in H.
  - now injection H as <-.
  - apply bind_Ok in H as (s1 & H1 & H). apply (IH s1); [|exact H].
    apply iterate_Ok in H1 as (s0 & _ & H1). now apply update_historicals_best in H1.
Qed.

End AppendFacts.

(** X3. A run whose operators touch the population only never resets or
    rewrites the four appended histories: a complete run
    ([num_iterations = T >= 0]) of an engine in any state leaves every
    recorded entry in place and appends exactly [T + 1] entries to each
    sequence; a second run on the same engine therefore ends with
    [2 (T + 1)] entries. *)
Theorem run_appends_to_what_is_recorded :
  forall (S : Type) (reduce : Np.reduction) (exec : evaluator S) (port : Pop.Port S)
         (self self' : Metaheuristic S),
    plan_touches_population_only exec (operators self) ->
    0 <= num_iterations self ->
    run reduce exec port self = Ok self' ->
    exists fitness position radius stagnation,
      historical_global_fitness self' = (historical_global_fitness self ++ fitness)%list
      /\ historical_global_position self'
         = (historical_global_position self ++ position)%list
      /\ historical_radius self' = (historical_radius self ++ radius)%list
      /\ historical_stagnation self' = (historical_stagnation self ++ stagnation)%list
      /\ Z.of_nat (List.length fitness) = num_iterations self + 1
      /\ Z.of_nat (List.length position) = num_iterations self + 1
      /\ Z.of_nat (List.length radius) = num_iterations self + 1
      /\ Z.of_nat (List.length stagnation) = num_iterations self + 1.
Proof.
  intros S reduce exec port self self' F HT H.
  destruct (run_extends S reduce exec port self self' F HT H)
    as (f & p & r & s & E1 & E2 & E3 & E4 & L1 & L2 & L3 & L4).
  exists f, p, r, s. rewrite L1, L2, L3, L4. repeat split; try assumption; lia.
Qed.

Lemma run_appends_to_what_is_recorded_witness :
  exists self1 self2,
    (mh <- init demo_population demo_heuristics 2 1 false ;;
     run Np.in_order Synthetic.exec Synthetic.port mh)
    = Ok self1
    /\ run Np.in_order Synthetic.exec Synthetic.port self1 = Ok self2
    /\ historical_global_fitness self1 = [4%float; 2%float]
    /\ historical_global_fitness self2 = [4%float; 2%float; 2%float; 1%float]
    /\ historical_stagnation self2 = [0; 0; 0; 0]
    /\ exists fitness position radius stagnation,
         historical_global_fitness self2
         = (historical_global_fitness self1 ++ fitness)%list
         /\ historical_global_position self2
            = (historical_global_position self1 ++ position)%list
         /\ historical_radius self2 = (historical_radius self1 ++ radius)%list
         /\ historical_stagnation self2
            = (historical_stagnation self1 ++ stagnation)%list
         /\ Z.of_nat (List.length fitness) = num_iterations self1 + 1
         /\ Z.of_nat (List.length position) = num_iterations self1 + 1
         /\ Z.of_nat (List.length radius) = num_iterations self1 + 1
         /\ Z.of_nat (List.length stagnation) = num_iterations self1 + 1.
Proof.
  eexists. eexists. split; [vm_compute; reflexivity|].
  split; [vm_compute; reflexivity|].
  split; [reflexivity|]. split; [reflexivity|]. split; [reflexivity|].
  apply (run_appends_to_what_is_recorded Synthetic.State Np.in_order Synthetic.exec
           Synthetic.port);
    [exact demo_plan_touches_population_only | vm_compute; discriminate
    | vm_compute; reflexivity].
Defined.

(** X4. After every complete run the last entry of the fitness history and
    the last entry of the position history are the global best fitness and
    position that the population holds at that moment. *)
Theorem run_ends_on_current_best :
  forall (S : Type) (reduce : Np.reduction) (exec : evaluator S) (port : Pop.Port S)
         (self self' : Metaheuristic S),
    run reduce exec port self = Ok self' ->
    index_neg (historical_global_fitness self') 1
    = Ok (Pop.global_best_fitness (pop self'))
    /\ index_neg (historical_global_position self') 1
       = Ok (Pop.global_best_position (pop self')).
Proof.
  intros S reduce exec port self self' H.
  apply run_Ok in H as (s5 & s6 & _ & _ & H6 & H & _).
  eapply (iterations_best S reduce exec port); [|exact H].
  now apply update_historicals_best in H6.
Qed.

Lemma run_ends_on_current_best_witness :
  exists self self',
    init demo_population demo_heuristics 2 3 false = Ok self
    /\ run Np.in_order Synthetic.exec Synthetic.port self = Ok self'
    /\ Pop.global_best_fitness (pop self') = 0.5%float
    /\ index_neg (historical_global_fitness self') 1
       = Ok (Pop.global_best_fitness (pop self'))
    /\ index_neg (historical_global_position self') 1
       = Ok (Pop.global_best_position (pop self')).
Proof.
  eexists. eexists. split; [reflexivity|].
  lazymatch goal with
  | |- run _ _ _ ?s = _ /\ _ =>
      split; [vm_compute; reflexivity|]; split; [reflexivity|];
      apply (run_ends_on_current_best Synthetic.State Np.in_order Synthetic.exec
               Synthetic.port s);
      vm_compute; reflexivity
  end.
Defined.

(** The same after a run whose operator empties the stagnation history and
    halves twice: the last statements of a run are a record and its
    report. *)
Example run_of_clearing_plan_ends_on_current_best :
  exists self self',
    init demo_population clearing_heuristics 2 3 false = Ok self
    /\ run Np.in_order Synthetic.exec Synthetic.port self = Ok self'
    /\ Pop.global_best_fitness (pop self') = 0.0625%float
    /\ index_neg (historical_global_fitness self') 1 = Ok 0.0625%float.
Proof.
  eexists. eexists. split; [reflexivity|]. split; [vm_compute; reflexivity|].
  split; reflexivity.
Qed.

(** ** The iteration counter after a run *)

Lemma last_range (T d : Z) : 0 < T -> last (range 1 (T + 1)) d = T.
Proof.
  intros HT. unfold range.
  replace (Z.to_nat (T + 1 - 1)) with (Datatypes.S (Z.to_nat (T - 1))) by lia.
  rewrite seq_S, map_app. cbn [map]. rewrite last_last. lia.
Qed.

Lemma last_nonempty {A : Type} (l : list A) (x d d' : A) :
  last (x :: l) d = last (x :: l) d'.
Proof.
  revert x; induction l as [|y l IH]; intros x; [reflexivity|].
  change (last (y :: l) d = last (y :: l) d'). apply IH.
Qed.

Section CounterFacts.

Variable S : Type.
Variable reduce : Np.reduction.
Variable exec : evaluator S.
Variable port : Pop.Port S.
Hypothesis keeps : Pop.port_keeps_iteration port.
Hypothesis keepx : exec_keeps_iteration exec.

Implicit Types self : Metaheuristic S.

Lemma iterate_iteration k self self' :
  iterate reduce exec port k self = Ok self' -> Pop.iteration (pop self') = k.
Proof.
  intros H. apply iterate_Ok in H as (s1 & H1 & H2).
  apply (steps_iteration S exec port _ _ _ keeps (any_steps_counter S exec _ keepx)) in H1.
  apply update_historicals_Ok in H2 as (c & r & s & _ & _ & _ & Ep & _).
  rewrite Ep, H1. reflexivity.
Qed.

Lemma iterations_iteration l : forall self self',
  for_each (iterate reduce exec port) l self = Ok self' ->
  Pop.iteration (pop self') = last l (Pop.iteration (pop self)).
Proof.
  induction l as [|k l IH]; intros self self' H; simpl in H.
  - now injection H as <-.
  - apply bind_Ok in H as (s1 & H1 & H).
    rewrite (IH _ _ H), (iterate_iteration _ _ _ H1).
    destruct l as [|z l]; [reflexivity|].
    change (last (k :: z :: l) (Pop.iteration (pop self)))
      with (last (z :: l) (Pop.iteration (pop self))).
    apply last_nonempty.
Qed.

End CounterFacts.

(** X5. After a complete run ([num_iterations = T >= 0]), when neither the
    methods of the population nor the evaluated texts assign the iteration
    counter, the population's counter is [T], whatever it was before the
    run. *)
Theorem run_leaves_counter_at_num_iterations :
  forall (S : Type) (reduce : Np.reduction) (exec : evaluator S) (port : Pop.Port S)
         (self self' : Metaheuristic S),
    Pop.port_keeps_iteration port ->
    exec_keeps_iteration exec ->
    0 <= num_iterations self ->
    run reduce exec port self = Ok self' ->
    Pop.iteration (pop self') = num_iterations self.
Proof.
  intros S reduce exec port self self' K Kx HT H.
  apply run_Ok in H as (s5 & s6 & [C5 _] & I5 & H6 & H & C6).
  apply update_historicals_Ok in H6 as (c & r & s & _ & _ & _ & Ep & _).
  assert (E : num_iterations s6 = num_iterations self) by apply C6.
  rewrite (iterations_iteration S reduce exec port K Kx _ _ _ H), E, Ep, (I5 K).
  destruct (Z.eq_dec (num_iterations self) 0) as [E0|E0].
  - rewrite E0. reflexivity.
  - apply last_range. lia.
Qed.

Lemma run_leaves_counter_at_num_iterations_witness :
  exists self self',
    init demo_population demo_heuristics 2 3 false = Ok self
    /\ Pop.iteration (pop self) = 1
    /\ run Np.in_order Synthetic.exec Synthetic.port self = Ok self'
    /\ Pop.iteration (pop self') = num_iterations self.
Proof.
  eexists. eexists. split; [reflexivity|]. split; [reflexivity|].
  lazymatch goal with
  | |- run _ _ _ ?s = _ /\ _ =>
      split; [vm_compute; reflexivity|];
      apply (run_leaves_counter_at_num_iterations Synthetic.State Np.in_order
               Synthetic.exec Synthetic.port s);
      [exact synthetic_keeps_iteration | exact synthetic_exec_keeps_iteration
      | vm_compute; discriminate | vm_compute; reflexivity]
  end.
Defined.

(** ** When the record and the run return *)

Lemma zip_with_length (f : float -> float -> float) (u : list float) : forall v,
  List.length v = List.length u -> List.length (Np.zip_with f u v) = List.length u.
Proof.
  induction u as [|x u IH]; intros [|y v] H; simpl in *; try congruence.
  rewrite IH; congruence.
Qed.

Lemma fold_vadd_length (rs : list (list float)) : forall acc,
  Forall (fun r => List.length r = List.length acc) rs ->
  List.length (fold_left Np.vadd rs acc) = List.length acc.
Proof.
  induction rs as [|r rs IH]; intros acc H; simpl; [reflexivity|].
  inversion H as [|? ? Hr Hrs]; subst.
  assert (E : List.length (Np.vadd acc r) = List.length acc)
    by (apply zip_with_length; exact Hr).
  rewrite IH, E; [reflexivity|].
  eapply Forall_impl; [|exact Hrs]. intros a Ha. congruence.
Qed.

(** The sum along the rows of an array has the length of a row. *)
Lemma sum0_length (reduce : Np.reduction) (r0 : list float) (rs : list (list float)) :
  Np.is_matrix (r0 :: rs) = true ->
  List.length (Np.sum0 reduce (r0 :: rs)) = List.length r0.
Proof.
  intros Hm. unfold Np.sum0.
  destruct (Nat.eqb_spec (List.length r0) 1) as [E|E]; [now rewrite E|].
  apply fold_vadd_length. apply Forall_forall. intros r Hr. cbn in Hm.
  rewrite forallb_forall in Hm. apply Nat.eqb_eq. now apply Hm.
Qed.

(** On an array of [n] rows the centroid and the radius are computed. *)
Lemma is_array_radius (reduce : Np.reduction) (n : Z) (x : list (list float)) :
  is_array n x = true ->
  exists c r, Np.mean0 reduce x = Ok c /\ radius_of reduce n x c = Ok r.
Proof.
  unfold is_array. intros H.
  apply andb_prop in H as [H Hm]. apply andb_prop in H as [Hn Hl].
  apply Z.ltb_lt in Hn.
  destruct x as [|r0 rs]; [discriminate|].
  unfold Np.mean0. rewrite Hm.
  set (c := map _ (Np.sum0 reduce (r0 :: rs))).
  assert (Hc : List.length c = List.length r0).
  { unfold c. rewrite length_map. now apply sum0_length. }
  exists c. unfold radius_of, Np.sub_tile.
  destruct (Z.ltb_spec n 0) as [Hneg|_]; [lia|].
  rewrite Hm. cbn [hd]. unfold Np.fits. rewrite Hc, Nat.eqb_refl. cbn [orb andb].
  rewrite Hl. cbn [orb bind map Np.norm2_rows Np.max]. eauto.
Qed.

Section ReturnFacts.

Variable S : Type.
Variable reduce : Np.reduction.

Implicit Types self : Metaheuristic S.

Lemma update_historicals_returns self :
  arrayed self ->
  Pop.iteration (pop self) <= 0 \/ tracked self ->
  exists self', update_historicals reduce self = Ok self'.
Proof.
  intros A Hpre. unfold update_historicals.
  destruct (is_array_radius reduce _ _ A) as (c & r & Hc & Hr). rewrite Hc. cbn [bind].
  rewrite Hr. cbn [bind].
  destruct (Z_lt_le_dec 0 (Pop.iteration (pop self))) as [Hi|Hi].
  - destruct Hpre as [Hle|T]; [lia|].
    destruct (stagnation_tracks_nonempty _ _ T) as (f0 & s0 & Hf0 & Hs0).
    rewrite (stagnation_next _ _ _ f0 _ s0 Hi Hf0 Hs0). cbn [bind]. eauto.
  - rewrite stagnation_not_positive by assumption. cbn [bind]. eauto.
Qed.

(** With nothing recorded and a positive counter the record reads index -2
    of a one-element list. *)
Lemma update_historicals_fails self :
  arrayed self ->
  historical_global_fitness self = [] ->
  0 < Pop.iteration (pop self) ->
  update_historicals reduce self = Raise IndexError.
Proof.
  intros A E Hi. unfold update_historicals.
  destruct (is_array_radius reduce _ _ A) as (c & r & Hc & Hr). rewrite Hc. cbn [bind].
  rewrite Hr. cbn [bind]. rewrite E. unfold instantaneous_stagnation.
  rewrite Z.gtb_ltb. destruct (Z.ltb_spec 0 (Pop.iteration (pop self))); [|lia].
  reflexivity.
Qed.

End ReturnFacts.

Section CompletionFacts.

Variable S : Type.
Variable reduce : Np.reduction.
Variable exec : evaluator S.
Variable port : Pop.Port S.
Variable n : Z.
Variable ops : list string.
Hypothesis keeps : Pop.port_keeps_iteration port.
Hypothesis keepx : plan_keeps_iteration exec ops.
Hypothesis serves : port_serves port n.
Hypothesis xserves : exec_serves exec n ops.
Hypothesis frame : plan_touches_population_only exec ops.

Implicit Types self : Metaheuristic S.

Lemma call_returns (m : Pop.method S) self :
  keeps_array n m -> ready n ops self ->
  exists self', call m self = Ok self' /\ ready n ops self'.
Proof.
  intros Hm (A & En & Eo). unfold arrayed in A. rewrite En in A.
  destruct (Hm _ A) as (p' & Hp & A'). unfold call. rewrite Hp.
  eexists. split; [reflexivity|]. unfold ready, arrayed. cbn. rewrite En. auto.
Qed.

Lemma evaluate_returns operator self :
  In operator ops -> ready n ops self ->
  exists self', evaluate exec ("self.pop." ++ operator) self = Ok self'
                /\ ready n ops self'.
Proof.
  intros Hin (A & En & Eo). unfold arrayed in A. rewrite En in A.
  destruct (xserves operator self Hin A) as (s1 & H1 & A1).
  unfold evaluate. rewrite H1. exists s1. split; [reflexivity|].
  destruct (frame operator Hin self s1 H1) as [(Co & _ & _ & Cn) _].
  unfold ready, arrayed. rewrite Cn, Co, En. auto.
Qed.

Lemma apply_step_returns step self :
  In (fst step) ops -> ready n ops self ->
  exists self', apply_step exec port step self = Ok self' /\ ready n ops self'.
Proof.
  destruct serves as (Ki & Ke & Ku & _).
  destruct step as [operator selector]. cbn [fst]. intros Hin R0.
  unfold apply_step.
  destruct (evaluate_returns operator self Hin R0) as (s1 & H1 & R1).
  rewrite H1. cbn [bind].
  destruct (call_returns _ s1 Ke R1) as (s2 & H2 & R2). rewrite H2. cbn [bind].
  assert (H3 : exists s3, update_population port selector s2 = Ok s3 /\ ready n ops s3).
  { unfold update_population, Pop.update_positions_default.
    rewrite existsb_eqb_In.
    destruct (in_dec string_dec selector (Pop.selection port)) as [Hsel|_];
      apply call_returns; auto; apply Ku; left; auto. }
  destruct H3 as (s3 & H3 & R3). rewrite H3. cbn [bind].
  apply call_returns; auto. apply Ku. right. right. auto.
Qed.

Lemma steps_return plan : forall self,
  Forall (fun step => In (fst step) ops) plan -> ready n ops self ->
  exists self', for_each (apply_step exec port) plan self = Ok self'
                /\ ready n ops self'.
Proof.
  induction plan as [|step plan IH]; intros self Hp R0; simpl; [eauto|].
  inversion Hp as [|? ? Hstep Hplan]; subst.
  destruct (apply_step_returns step self) as (s1 & H1 & R1); [assumption..|].
  rewrite H1. cbn [bind]. now apply IH.
Qed.

Lemma combine_operators (sels : list string) :
  Forall (fun step : string * string => In (fst step) ops) (combine ops sels).
Proof.
  apply Forall_forall. intros [o s] H. cbn [fst]. eapply in_combine_l. exact H.
Qed.

Lemma report_returns self self0 :
  update_historicals reduce self0 = Ok self -> report port self = Ok self.
Proof.
  intros H. apply update_historicals_Ok in H
    as (c & r & s & _ & _ & _ & _ & _ & _ & _ & _ & E3 & E4).
  unfold report. rewrite E3, E4, !index_neg_last. cbn [bind].
  destruct serves as (_ & _ & _ & Kg).
  destruct (Kg (pop self)) as (text & ->). reflexivity.
Qed.

Lemma update_historicals_ready self self' :
  ready n ops self -> update_historicals reduce self = Ok self' -> ready n ops self'.
Proof.
  intros (A & En & Eo) H. apply update_historicals_Ok in H
    as (c & r & s & _ & _ & _ & Ep & (Co & _ & _ & Cn) & _).
  unfold ready, arrayed in *. rewrite Ep, Cn, Co. auto.
Qed.

Lemma iterate_returns k self :
  0 < k -> ready n ops self -> tracked self ->
  exists self', iterate reduce exec port k self = Ok self'
                /\ ready n ops self' /\ tracked self'.
Proof.
  intros Hk R0 T0. unfold iterate.
  set (self0 := set_pop self (Pop.set_iteration k (pop self))).
  assert (Rs : ready n ops self0) by exact R0.
  assert (Eo : operators self = ops) by apply R0.
  destruct (steps_return (combine (operators self0) (selectors self0)) self0)
    as (s1 & H1 & R1); [|exact Rs|].
  { cbn [operators self0 set_pop]. rewrite Eo. apply combine_operators. }
  rewrite H1. cbn [bind].
  apply (steps_tracked S exec port ops keeps frame keepx k self s1) in H1 as [T1 I1];
    [|exact Eo|exact T0].
  destruct (update_historicals_returns S reduce s1) as (s2 & H2);
    [apply R1 | now right |].
  rewrite H2. cbn [bind]. rewrite (report_returns _ _ H2).
  exists s2. split; [reflexivity|]. split.
  - eapply update_historicals_ready; eassumption.
  - apply (update_historicals_next S reduce s1); [exact T1 | lia | exact H2].
Qed.

Lemma iterations_return l : forall self,
  Forall (fun k => 0 < k) l -> ready n ops self -> tracked self ->
  exists self', for_each (iterate reduce exec port) l self = Ok self'.
Proof.
  induction l as [|k l IH]; intros self Hl R0 T0; simpl; [eauto|].
  inversion Hl as [|? ? Hk Hl']; subst.
  destruct (iterate_returns k self) as (s1 & H1 & R1 & T1); [assumption..|].
  rewrite H1. cbn [bind]. now apply IH.
Qed.

Lemma run_returns_when_served self :
  ready n ops self ->
  historical_global_fitness self = [] ->
  historical_stagnation self = [] ->
  exists self', run reduce exec port self = Ok self'.
Proof.
  intros R0 Ef Es. unfold run.
  set (self0 := set_pop self (Pop.set_iteration 0 (pop self))).
  assert (Rs : ready n ops self0) by exact R0.
  destruct serves as (Ki & Ke & Ku & _).
  destruct keeps as (Ii & Ie & Iu).
  assert (Ua : run_updates port "population" "all") by (left; auto).
  assert (Up : run_updates port "particular" "all") by (right; left; auto).
  assert (Ug : run_updates port "global" "greedy") by (right; right; auto).
  destruct (call_returns _ self0 Ki Rs) as (s1 & H1 & R1). rewrite H1. cbn [bind].
  destruct (call_returns _ s1 Ke R1) as (s2 & H2 & R2). rewrite H2. cbn [bind].
  destruct (call_returns _ s2 (Ku "population" "all" Ua) R2) as (s3 & H3 & R3).
  unfold Pop.update_positions_default. rewrite H3. cbn [bind].
  destruct (call_returns _ s3 (Ku "particular" "all" Up) R3) as (s4 & H4 & R4).
  rewrite H4. cbn [bind].
  destruct (call_returns _ s4 (Ku "global" "greedy" Ug) R4) as (s5 & H5 & R5).
  rewrite H5. cbn [bind].
  assert (I5 : Pop.iteration (pop s5) = 0).
  { rewrite (call_iteration S _ _ _ (Iu _ _) H5), (call_iteration S _ _ _ (Iu _ _) H4),
      (call_iteration S _ _ _ (Iu _ _) H3), (call_iteration S _ _ _ Ie H2),
      (call_iteration S _ _ _ Ii H1). reflexivity. }
  assert (F5 : same_history self s5).
  { apply call_frame in H1 as [_ F1], H2 as [_ F2], H3 as [_ F3], H4 as [_ F4],
      H5 as [_ F5].
    eapply same_history_trans; [|exact F5]. eapply same_history_trans; [|exact F4].
    eapply same_history_trans; [|exact F3]. eapply same_history_trans; [|exact F2].
    eapply same_history_trans; [|exact F1]. repeat split. }
  destruct F5 as (E1 & _ & _ & _ & E5).
  destruct (update_historicals_returns S reduce s5) as (s6 & H6);
    [apply R5 | left; lia |].
  rewrite H6. cbn [bind].
  apply iterations_return; [apply range_positive | |].
  - eapply update_historicals_ready; eassumption.
  - apply (update_historicals_first S reduce s5);
      [congruence | congruence | lia | exact H6].
Qed.

End CompletionFacts.

(** *** The synthetic population serves its two operators *)

Lemma synthetic_greedy_positions (p : Pop.Population Synthetic.State) :
  Pop.positions (Synthetic.greedy p) = Pop.positions p.
Proof.
  unfold Synthetic.greedy. generalize (Pop.positions p) at 1 as xs.
  intros xs. revert p. induction xs as [|x xs IH]; intros p; simpl; [reflexivity|].
  rewrite IH. now destruct (PrimFloat.leb _ _).
Qed.

Lemma is_array_map (f : float -> float) (n : Z) (x : list (list float)) :
  is_array n (map (map f) x) = is_array n x.
Proof.
  unfold is_array. rewrite length_map. f_equal.
  destruct x as [|r rs]; [reflexivity|]. cbn [map Np.is_matrix].
  rewrite length_map. induction rs as [|r' rs IH]; [reflexivity|].
  cbn [map forallb]. now rewrite length_map, IH.
Qed.

Lemma synthetic_serves (n : Z) : port_serves Synthetic.port n.
Proof.
  repeat split.
  - intros p A. eexists. split; [reflexivity|]. exact A.
  - intros p A. eexists. split; [reflexivity|]. exact A.
  - intros level selector _ p A. eexists. split; [reflexivity|].
    destruct (String.eqb level "global");
      [rewrite synthetic_greedy_positions|]; exact A.
  - intros p. eexists. reflexivity.
Qed.

Lemma synthetic_exec_serves (n : Z) :
  exec_serves Synthetic.exec n ["halve()"; "stay(k = 1)"].
Proof.
  intros operator self [<-|[<-|[]]] A; (eexists; split; [reflexivity|]).
  - cbn [pop set_pop Synthetic.halve Synthetic.with_positions Pop.positions
           Synthetic.log].
    now rewrite is_array_map.
  - exact A.
Qed.

(** X6. A run returns when the population allows it: on a population
    whose positions are an array of [num_agents] rows and whose methods
    leave the iteration counter alone, return where [run] calls them and
    keep the positions such an array, and for a plan whose operators are
    evaluated without an exception, touch the population only, leave the
    counter alone and keep the positions such an array, the run of a
    freshly built engine returns normally. *)
Theorem run_returns :
  forall (S : Type) (reduce : Np.reduction) (exec : evaluator S) (port : Pop.Port S)
         (population : Pop.Population S)
         (simple_heuristics : list descriptor) (agents T : Z) (v : bool)
         (self : Metaheuristic S),
    Pop.port_keeps_iteration port ->
    is_array agents (Pop.positions population) = true ->
    init population simple_heuristics agents T v = Ok self ->
    port_serves port agents ->
    exec_serves exec agents (operators self) ->
    plan_touches_population_only exec (operators self) ->
    plan_keeps_iteration exec (operators self) ->
    exists self', run reduce exec port self = Ok self'.
Proof.
  intros S reduce exec port population hs agents T v self K A Hinit Hserves Hx F Kx.
  apply init_Ok in Hinit as (Ep & _ & En & _ & E1 & _ & _ & _ & E4).
  apply (run_returns_when_served S reduce exec port agents (operators self)
           K Kx Hserves Hx F); try assumption.
  unfold ready, arrayed. rewrite Ep, En. auto.
Qed.

Lemma run_returns_witness :
  exists self,
    init demo_population demo_heuristics 2 3 false = Ok self
    /\ exists self', run Np.in_order Synthetic.exec Synthetic.port self = Ok self'.
Proof.
  eexists. split; [reflexivity|].
  apply (run_returns Synthetic.State Np.in_order Synthetic.exec Synthetic.port
           demo_population demo_heuristics 2 3 false);
    [exact synthetic_keeps_iteration | reflexivity | reflexivity
    | exact (synthetic_serves 2) | exact (synthetic_exec_serves 2)
    | exact demo_plan_touches_population_only | apply synthetic_plan_keeps_iteration].
Defined.

(** X7. The record depends on the order of a run: called on an engine
    with nothing recorded while the population's counter is positive (its
    positions an array of [num_agents] rows), [__update_historicals] raises
    [IndexError], for index -2 of the one-element fitness history. *)
Theorem record_before_bootstrap_fails :
  forall (S : Type) (reduce : Np.reduction) (self : Metaheuristic S),
    is_array (num_agents self) (Pop.positions (pop self)) = true ->
    historical_global_fitness self = [] ->
    0 < Pop.iteration (pop self) ->
    update_historicals reduce self = Raise IndexError.
Proof.
  intros S reduce self A E Hi. now apply update_historicals_fails.
Qed.

Lemma record_before_bootstrap_fails_witness :
  exists self,
    init demo_population demo_heuristics 2 3 false = Ok self
    /\ Pop.iteration (pop self) = 1
    /\ update_historicals Np.in_order self = Raise IndexError.
Proof.
  eexists. split; [reflexivity|]. split; [reflexivity|].
  apply record_before_bootstrap_fails; [reflexivity | reflexivity | cbn; lia].
Defined.

(** ** The global best along the history *)

Section MonotoneFacts.

Variable S : Type.
Variable reduce : Np.reduction.
Variable exec : evaluator S.
Variable port : Pop.Port S.
Variable R : float -> float -> Prop.
Hypothesis R_refl : forall a, R a a.
Hypothesis R_trans : forall a b c, R a b -> R b c -> R a c.
Hypothesis improving : port_improves R port.
Hypothesis improvingx : exec_improves R exec.

Implicit Types self : Metaheuristic S.

Lemma call_ordered (m : Pop.method S) self self' :
  improves R m -> ordered_history R self -> call m self = Ok self' ->
  ordered_history R self'.
Proof.
  intros Hm [O1 O2] H. apply call_Ok in H as (p & Hp & ->).
  split; [exact O1|]. cbn. intros a Ha.
  eapply R_trans; [apply O2, Ha | apply (Hm _ _ Hp)].
Qed.

Lemma evaluate_ordered source self self' :
  touches_population_only exec source ->
  ordered_history R self -> exec source self = inr self' -> ordered_history R self'.
Proof.
  intros F [O1 O2] H. destruct (F _ _ H) as [_ (E1 & _)].
  split; rewrite E1; [exact O1|]. intros a Ha.
  eapply R_trans; [apply O2, Ha | apply (improvingx _ _ _ H)].
Qed.

Lemma apply_step_ordered step self self' :
  touches_population_only exec ("self.pop." ++ fst step) ->
  ordered_history R self -> apply_step exec port step self = Ok self' ->
  ordered_history R self'.
Proof.
  destruct improving as (Ii & Ie & Iu).
  destruct step as [operator selector]. cbn [fst]. intros F O H.
  apply apply_step_Ok in H as (s1 & s2 & s3 & sel & H1 & H2 & H3 & H4).
  eapply call_ordered; [apply Iu | | exact H4].
  eapply call_ordered; [apply Iu | | exact H3].
  eapply call_ordered; [apply Ie | | exact H2].
  eapply evaluate_ordered; eassumption.
Qed.

Lemma steps_ordered plan : forall self self',
  Forall (fun step => touches_population_only exec ("self.pop." ++ fst step)) plan ->
  ordered_history R self -> for_each (apply_step exec port) plan self = Ok self' ->
  ordered_history R self'.
Proof.
  induction plan as [|step plan IH]; intros self self' F O H; simpl in H.
  - now injection H as <-.
  - apply bind_Ok in H as (s1 & H1 & H). inversion F as [|? ? Fs Fp]; subst.
    eapply IH; [exact Fp| |exact H].
    eapply apply_step_ordered; eassumption.
Qed.

Lemma update_historicals_ordered self self' :
  ordered_history R self -> update_historicals reduce self = Ok self' ->
  ordered_history R self'.
Proof.
  intros [O1 O2] H. apply update_historicals_Ok in H
    as (c & r & s & _ & _ & _ & Ep & _ & E1 & _).
  split.
  - rewrite E1. intros i a b. rewrite !nth_error_append.
    destruct (Nat.ltb_spec (i + 1) (List.length (historical_global_fitness self)))
      as [Hi|Hi].
    + destruct (Nat.ltb_spec i (List.length (historical_global_fitness self))); [|lia].
      apply O1.
    + destruct (Nat.eqb_spec (i + 1) (List.length (historical_global_fitness self)))
        as [E|E]; [|discriminate].
      destruct (Nat.ltb_spec i (List.length (historical_global_fitness self))); [|lia].
      intros Ha [= <-]. apply O2.
      assert (Hne : historical_global_fitness self <> []).
      { intros E0. rewrite E0 in E. cbn in E. lia. }
      destruct (index_neg_1_nonempty _ Hne) as (x & Hx & Nx).
      replace (pred (List.length (historical_global_fitness self))) with i in Nx by lia.
      congruence.
  - rewrite E1, Ep, index_neg_last. intros a [= <-]. apply R_refl.
Qed.

Lemma iterate_ordered k self self' :
  plan_touches_population_only exec (operators self) ->
  ordered_history R self -> iterate reduce exec port k self = Ok self' ->
  ordered_history R self'.
Proof.
  intros F O H. apply iterate_Ok in H as (s0 & H0 & H1).
  eapply update_historicals_ordered; [|exact H1].
  eapply steps_ordered; [apply plan_steps; exact F | | exact H0].
  exact O.
Qed.

Lemma iterations_ordered l self self' :
  plan_touches_population_only exec (operators self) ->
  ordered_history R self -> for_each (iterate reduce exec port) l self = Ok self' ->
  ordered_history R self'.
Proof.
  intros F O H.
  apply (iterations_framed S reduce exec port (fun _ => ordered_history R)
           (fun _ => True)) with (l := l) (n := 0%nat) (self := self);
    try assumption; [|apply Forall_True].
  intros m k s s' _ Fs Os Hs. eapply iterate_ordered; eassumption.
Qed.

Lemma run_ordered self self' :
  plan_touches_population_only exec (operators self) ->
  historical_global_fitness self = [] ->
  run reduce exec port self = Ok self' -> ordered_history R self'.
Proof.
  destruct improving as (Ii & Ie & Iu).
  intros F E H. pose proof H as Hrun. unfold run in H.
  apply bind_Ok in H as (s1 & H1 & H). apply bind_Ok in H as (s2 & H2 & H).
  apply bind_Ok in H as (s3 & H3 & H). apply bind_Ok in H as (s4 & H4 & H).
  apply bind_Ok in H as (s5 & H5 & H). apply bind_Ok in H as (s6 & H6 & H).
  assert (C6 : same_config self s6).
  { apply call_frame in H1 as [C1 _], H2 as [C2 _], H3 as [C3 _], H4 as [C4 _].
    pose proof (call_frame S _ _ _ H5) as [C5 _].
    apply update_historicals_config in H6 as C6.
    eapply same_config_trans; [|exact C6]. eapply same_config_trans; [|exact C5].
    eapply same_config_trans; [|exact C4]. eapply same_config_trans; [|exact C3].
    eapply same_config_trans; [|exact C2]. exact C1. }
  eapply iterations_ordered; [eapply frame_passes; eassumption| |exact H].
  eapply update_historicals_ordered; [|exact H6].
  eapply call_ordered; [apply Iu | | exact H5].
  eapply call_ordered; [apply Iu | | exact H4].
  eapply call_ordered; [apply Iu | | exact H3].
  eapply call_ordered; [apply Ie | | exact H2].
  eapply call_ordered; [apply Ii | | exact H1].
  split; cbn; rewrite E.
  - intros i a b Ha. now destruct i.
  - intros a Ha. discriminate.
Qed.

End MonotoneFacts.

(** *** The synthetic population never lets its global best go up *)

Lemma never_up_refl (a : float) : never_up a a.
Proof. apply rt_refl. Qed.

Lemma never_up_trans (a b c : float) : never_up a b -> never_up b c -> never_up a c.
Proof. apply rt_trans. Qed.

Lemma synthetic_greedy_never_up (p : Pop.Population Synthetic.State) :
  never_up (Pop.global_best_fitness p) (Pop.global_best_fitness (Synthetic.greedy p)).
Proof.
  unfold Synthetic.greedy. generalize (Pop.positions p) as xs.
  intros xs. revert p. induction xs as [|x xs IH]; intros p; simpl; [apply rt_refl|].
  eapply rt_trans; [|apply IH].
  destruct (PrimFloat.leb (Synthetic.fitness x) (Pop.global_best_fitness p)) eqn:E;
    [|apply rt_refl].
  apply rt_step. exact E.
Qed.

Lemma synthetic_improves : port_improves never_up Synthetic.port.
Proof.
  repeat split.
  - intros p p' [= <-]. apply rt_refl.
  - intros p p' [= <-]. apply rt_refl.
  - intros level selector p p'. simpl. intros [= <-].
    destruct (String.eqb level "global"); [|apply rt_refl].
    apply (synthetic_greedy_never_up (Synthetic.log (UpdatePositions level selector) p)).
Qed.

Lemma synthetic_exec_improves : exec_improves never_up Synthetic.exec.
Proof.
  intros source self self' H. unfold Synthetic.exec in H.
  apply (synthetic_sequence_invariant
           (fun p => Pop.global_best_fitness p = Pop.global_best_fitness (pop self)))
    in H.
  - rewrite H. apply rt_refl.
  - intros p Hp. exact Hp.
  - reflexivity.
Qed.

(** X9. The history of the global fitness is as monotone as the population
    and its operators make the global best: for every reflexive and
    transitive relation [R] along which each method of the population and
    each evaluated text moves the global best fitness, consecutive entries
    recorded by a complete run of a freshly built engine whose operators
    touch the population only are related by [R]. *)
Theorem history_follows_the_global_best :
  forall (S : Type) (reduce : Np.reduction) (exec : evaluator S) (port : Pop.Port S)
         (R : float -> float -> Prop)
         (population : Pop.Population S) (simple_heuristics : list descriptor)
         (agents T : Z) (v : bool) (self self' : Metaheuristic S),
    (forall a, R a a) ->
    (forall a b c, R a b -> R b c -> R a c) ->
    port_improves R port ->
    exec_improves R exec ->
    init population simple_heuristics agents T v = Ok self ->
    plan_touches_population_only exec (operators self) ->
    run reduce exec port self = Ok self' ->
    forall i a b,
      nth_error (historical_global_fitness self') i = Some a ->
      nth_error (historical_global_fitness self') (i + 1) = Some b ->
      R a b.
Proof.
  intros S reduce exec port R population hs agents T v self self' Rr Rt Hp Hx Hinit F Hrun.
  apply init_Ok in Hinit as (_ & _ & _ & _ & E1 & _).
  exact (proj1 (run_ordered S reduce exec port R Rr Rt Hp Hx self self' F E1 Hrun)).
Qed.

(** The global best of the synthetic population moves (4, 2, 1, 0.5) and
    never goes up. *)
Lemma history_follows_the_global_best_witness :
  exists self self',
    init demo_population demo_heuristics 2 3 false = Ok self
    /\ run Np.in_order Synthetic.exec Synthetic.port self = Ok self'
    /\ historical_global_fitness self' = [4%float; 2%float; 1%float; 0.5%float]
    /\ forall i a b,
         nth_error (historical_global_fitness self') i = Some a ->
         nth_error (historical_global_fitness self') (i + 1) = Some b ->
         never_up a b.
Proof.
  eexists. eexists. split; [reflexivity|]. split; [vm_compute; reflexivity|].
  split; [reflexivity|].
  lazymatch goal with
  | |- forall i a b, nth_error (historical_global_fitness ?s') i = _ -> _ =>
      eapply (history_follows_the_global_best Synthetic.State Np.in_order Synthetic.exec
                Synthetic.port never_up demo_population demo_heuristics 2 3 false _ s');
        [exact never_up_refl | exact never_up_trans | exact synthetic_improves
        | exact synthetic_exec_improves | reflexivity
        | exact demo_plan_touches_population_only | vm_compute; reflexivity]
  end.
Defined.

(** ** Plans: concatenation, and the empty plan *)

(** X10. Compilation goes descriptor by descriptor: the plan of two
    sequences of descriptors one after the other is the plan of the first
    followed by the plan of the second, operators and selectors alike. *)
Theorem process_heuristics_app :
  forall hs1 hs2 : list descriptor,
    process_heuristics (hs1 ++ hs2)
    = (plan1 <- process_heuristics hs1 ;;
       plan2 <- process_heuristics hs2 ;;
       Ok ((fst plan1 ++ fst plan2)%list, (snd plan1 ++ snd plan2)%list)).
Proof.
  intros hs1 hs2. rewrite !process_heuristics_eq. cbn [bind fst snd].
  now rewrite !map_app.
Qed.

Section EmptyPlanFacts.

Variable S : Type.
Variable reduce : Np.reduction.
Variable exec : evaluator S.
Variable port : Pop.Port S.

Implicit Types self : Metaheuristic S.








End EmptyPlanFacts.




(** ** The performance figure *)

Lemma run_same_config {S : Type} (reduce : Np.reduction) (exec : evaluator S)
    (port : Pop.Port S) (self self' : Metaheuristic S) :
  plan_touches_population_only exec (operators self) ->
  run reduce exec port self = Ok self' -> same_config self self'.
Proof.
  intros F H. apply run_Ok in H as (s5 & s6 & _ & _ & _ & H & C6).
  eapply same_config_trans; [exact C6|].
  apply (iterations_framed S reduce exec port (fun _ _ => True) (fun _ => True))
    with (l := range 1 (num_iterations s6 + 1)) (n := 0%nat) (self := s6);
    auto using Forall_True.
  eapply frame_passes; eassumption.
Qed.

Lemma plot_lengths {A B : Type} (x : list A) (y : list B) :
  plot x y = if Nat.eqb (List.length x) (List.length y) then Ok tt else Raise ValueError.
Proof. reflexivity. Qed.

(** X12. After the first complete run of a freshly built engine
    ([num_iterations = T >= 0]) whose operators touch the population only,
    the performance figure can be drawn: the abscissae [0 .. T] are as many
    as the entries of the fitness history and of the radius history. *)
Theorem show_performance_after_run :
  forall (S : Type) (reduce : Np.reduction) (exec : evaluator S) (port : Pop.Port S)
         (population : Pop.Population S)
         (simple_heuristics : list descriptor) (agents T : Z) (v : bool)
         (self self' : Metaheuristic S),
    0 <= T ->
    init population simple_heuristics agents T v = Ok self ->
    plan_touches_population_only exec (operators self) ->
    run reduce exec port self = Ok self' ->
    show_performance self' = Ok tt.
Proof.
  intros S reduce exec port population hs agents T v self self' HT Hinit F Hrun.
  apply init_Ok in Hinit as (_ & ET & _ & _ & E1 & E2 & _ & E3 & E4).
  assert (L0 : history_length 0 self).
  { unfold history_length. now rewrite E1, E2, E3, E4. }
  assert (HT' : 0 <= num_iterations self) by lia.
  destruct (run_appends_to_histories S reduce exec port 0 self self' F HT' L0 Hrun)
    as (A & _ & C & _).
  destruct (run_same_config reduce exec port self self' F Hrun) as (_ & _ & En & _).
  unfold show_performance. rewrite !plot_lengths, range_length, A, C, En.
  replace (Z.to_nat (num_iterations self + 1 - 0))
    with (0 + Z.to_nat (num_iterations self + 1))%nat by lia.
  now rewrite Nat.eqb_refl.
Qed.

Lemma show_performance_after_run_witness :
  exists self self',
    init demo_population demo_heuristics 2 3 false = Ok self
    /\ run Np.in_order Synthetic.exec Synthetic.port self = Ok self'
    /\ show_performance self' = Ok tt.
Proof.
  eexists. eexists. split; [reflexivity|]. split; [vm_compute; reflexivity|].
  eapply (show_performance_after_run Synthetic.State Np.in_order Synthetic.exec
            Synthetic.port demo_population demo_heuristics 2 3 false);
    [lia | reflexivity | exact demo_plan_touches_population_only
    | vm_compute; reflexivity].
Defined.

(** X13. The performance figure wants exactly one run: on a freshly built
    engine ([num_iterations = T >= 0]) that has not run, and again after a
    second complete run on the same engine (its operators touching the
    population only), the abscissae [0 .. T] and the fitness history differ
    in length and the figure is refused ([ValueError]). *)
Theorem show_performance_wants_one_run :
  forall (S : Type) (reduce : Np.reduction) (exec : evaluator S) (port : Pop.Port S)
         (population : Pop.Population S)
         (simple_heuristics : list descriptor) (agents T : Z) (v : bool)
         (self : Metaheuristic S),
    0 <= T ->
    init population simple_heuristics agents T v = Ok self ->
    show_performance self = Raise ValueError
    /\ (plan_touches_population_only exec (operators self) ->
        forall self1 self2 : Metaheuristic S,
          run reduce exec port self = Ok self1 -> run reduce exec port self1 = Ok self2 ->
          show_performance self2 = Raise ValueError).
Proof.
  intros S reduce exec port population hs agents T v self HT Hinit.
  apply init_Ok in Hinit as (_ & ET & _ & _ & E1 & E2 & _ & E3 & E4).
  assert (HT' : 0 <= num_iterations self) by lia.
  split.
  - unfold show_performance. rewrite plot_lengths, range_length, E1. cbn [List.length].
    destruct (Nat.eqb_spec (Z.to_nat (num_iterations self + 1 - 0)) 0) as [E|E]; [lia|].
    reflexivity.
  - intros F s1 s2 H1 H2.
    assert (L0 : history_length 0 self).
    { unfold history_length. now rewrite E1, E2, E3, E4. }
    pose proof (run_same_config reduce exec port self s1 F H1) as C1.
    pose proof (frame_passes S exec _ _ C1 F) as F1.
    destruct C1 as (_ & _ & En1 & _).
    destruct (run_same_config reduce exec port s1 s2 F1 H2) as (_ & _ & En2 & _).
    pose proof (run_appends_to_histories S reduce exec port 0 self s1 F HT' L0 H1) as L1.
    assert (HT1 : 0 <= num_iterations s1) by lia.
    destruct (run_appends_to_histories S reduce exec port _ s1 s2 F1 HT1 L1 H2) as (A & _).
    unfold show_performance. rewrite plot_lengths, range_length, A, En2, En1.
    destruct (Nat.eqb_spec (Z.to_nat (num_iterations self + 1 - 0))
                (0 + Z.to_nat (num_iterations self + 1)
                 + Z.to_nat (num_iterations self + 1))) as [E|E]; [lia|].
    reflexivity.
Qed.

Lemma show_performance_wants_one_run_witness :
  exists self self1 self2,
    init demo_population demo_heuristics 2 1 false = Ok self
    /\ run Np.in_order Synthetic.exec Synthetic.port self = Ok self1
    /\ run Np.in_order Synthetic.exec Synthetic.port self1 = Ok self2
    /\ show_performance self1 = Ok tt
    /\ show_performance self2 = Raise ValueError
    /\ show_performance self = Raise ValueError
    /\ (plan_touches_population_only Synthetic.exec (operators self) ->
        forall s1 s2 : Metaheuristic Synthetic.State,
          run Np.in_order Synthetic.exec Synthetic.port self = Ok s1 ->
          run Np.in_order Synthetic.exec Synthetic.port s1 = Ok s2 ->
          show_performance s2 = Raise ValueError).
Proof.
  eexists. eexists. eexists. split; [reflexivity|].
  split; [vm_compute; reflexivity|]. split; [vm_compute; reflexivity|].
  split; [reflexivity|]. split; [reflexivity|].
  eapply (show_performance_wants_one_run Synthetic.State Np.in_order Synthetic.exec
            Synthetic.port demo_population demo_heuristics 2 1 false);
    [lia | reflexivity].
Defined.
